(** * Grimoire: the decklist-to-PDF job pipeline (package [job])

    A shallow embedding of [internal/model/job] (rate limiter, job store,
    card resolution, image retrieval, PDF assembly, job life cycle) and of
    the result query of [cmd/api-server], followed by the properties of the
    pipeline.

    Conventions.
    - [time.Time] and [time.Duration] are integers counting nanoseconds;
      a [time.Time] counts from Go's zero time.
    - Everything the program obtains from outside (HTTP answers, image
      codecs, the PDF serializer, the scheduler, the iteration order of Go
      maps) is read from a [World]; a definition is a function of it.
    - Network and timer effects of a function are returned as the list of
      [Event]s it performs, in program order.  Logging is left out. *)

From stdpp Require Import gmap strings list.
From Stdlib Require Import ZArith Lia Permutation Ascii.

#[local] Set Warnings "-register-all".
Local Open Scope Z_scope.

(* ===================================================================== *)
(** ** Package [time] *)
(* ===================================================================== *)

Definition Nanosecond : Z := 1.
Definition Millisecond : Z := 1000000 * Nanosecond.
Definition Second : Z := 1000 * Millisecond.
Definition Minute : Z := 60 * Second.
Definition Hour : Z := 60 * Minute.

Definition maxDuration : Z := 2 ^ 63 - 1.
Definition minDuration : Z := - 2 ^ 63.

(** Arithmetic on [time.Duration] (an [int64]) wraps around. *)
Definition wrap64 (x : Z) : Z := (x + 2 ^ 63) mod 2 ^ 64 - 2 ^ 63.

(** [1 << n] on a Go [int] / [uint] (64 bits). *)
Definition shl1 (n : Z) : Z := wrap64 (Z.shiftl 1 n).

(** [a * b] on durations. *)
Definition dmul (a b : Z) : Z := wrap64 (a * b).

(** [t.Sub(u)]: the difference, saturated to the range of a Duration. *)
Definition Sub (t u : Z) : Z :=
  let d := t - u in
  if maxDuration <? d then maxDuration
  else if d <? minDuration then minDuration
  else d.

(** [time.Since(t)], evaluated when the clock shows [now]. *)
Definition Since (now t : Z) : Z := Sub now t.

(* ===================================================================== *)
(** ** Rate limiter *)
(* ===================================================================== *)

(** The clock together with the package variable [lastRequestTime].
    [rateLimiterMutex] serialises the calls, so the calls of all callers
    form one sequence, each running from lock to unlock. *)
Record Limiter := {
  clock : Z;
  lastRequestTime : Z
}.

(** What the scheduler adds to one call: the time that passes before the
    call reads [time.Now()] under the lock, the time [time.Sleep] oversleeps
    (it pauses for at least the requested duration), and the time that
    passes before the second [time.Now()].  They are naturals: the clock is
    monotonic. *)
Record Lag := {
  lagLock : N;
  lagSleep : N;
  lagNow : N
}.

Definition rateLimitWait (g : Lag) (s : Limiter) : Limiter :=
  let now := clock s + Z.of_N (lagLock g) in
  let elapsed := Sub now (lastRequestTime s) in
  let woke :=
    if elapsed <? 100 * Millisecond
    then now + (100 * Millisecond - elapsed) + Z.of_N (lagSleep g)
    else now in
  let t := woke + Z.of_N (lagNow g) in
  {| clock := t; lastRequestTime := t |}.

(** A sequence of calls; the result lists the value recorded in
    [lastRequestTime] by each call, and the state after the last one. *)
Fixpoint rateLimitCalls (gs : list Lag) (s : Limiter) : list Z * Limiter :=
  match gs with
  | [] => ([], s)
  | g :: gs' =>
      let s1 := rateLimitWait g s in
      let '(ts, s2) := rateLimitCalls gs' s1 in
      (lastRequestTime s1 :: ts, s2)
  end.

(** The limiter when the process starts: [lastRequestTime] is the zero
    [time.Time]. *)
Definition startLimiter (t0 : N) : Limiter :=
  {| clock := Z.of_N t0; lastRequestTime := 0 |}.

(* ===================================================================== *)
(** ** Errors *)
(* ===================================================================== *)

(** The program's errors are [fmt.Errorf] values; one constructor stands
    for each format string of the source. *)
Inductive Err : Type :=
| ErrTransport                        (* an error of http.Get / client.Get *)
| ErrRead                             (* an error of io.ReadAll *)
| ErrEmptyLine                        (* "empty line" *)
| ErrCouldNotParse (line : string)    (* "could not parse line: %q" *)
| ErrInvalidQuantity                  (* "invalid quantity: %w" *)
| ErrHTTPRequestFailed (attempts : Z) (* "HTTP request failed after %d attempts: %w" *)
| ErrAPIRateLimited (attempts : Z)    (* "API rate limited after %d attempts" *)
| ErrAPIStatus (code : Z)             (* "API error: status %d" *)
| ErrJSONDecode                       (* "JSON decode failed: %w" *)
| ErrHTTPStatus (code : Z)            (* "HTTP error: status %d" *)
| ErrFetchImage (attempts : Z) (last : option Err)
                                      (* "failed to fetch image after %d attempts: %w" *)
| ErrDecodeImage                      (* "failed to decode image: %w" *)
| ErrEncodeImage                      (* "failed to encode image: %w" *)
| ErrImageHolder                      (* an error of gopdf.ImageHolderByReader *)
| ErrWrite                            (* an error of pdf.WriteTo *)
| ErrFailedToParse (line : string) (cause : Err)
                                      (* "failed to parse %q: %w" *)
| ErrEncountered (n : Z) (errors : list Err)
                                      (* "encountered %d errors: %v" *)
| ErrPDFGeneration (cause : Err)      (* "PDF generation failed: %w" *)
| ErrJobNotFound (id : string)        (* "job %s not found" *)
| ErrMaxCapacity                      (* the queue's error when it is full *)
| ErrQueueShutdown.                   (* the queue's error after Release *)

(* ===================================================================== *)
(** ** gopdf documents *)
(* ===================================================================== *)

(** A page as the assembler draws it: the black rectangle over the whole
    page, and the artwork placed in the card box, when one was placed. *)
Record Page := {
  filled : bool;
  artwork : option (list Byte.byte)
}.

(** [gopdf.GoPdf]: the pages added so far, in order.  The serialized
    document ([bytes.Buffer]) is represented by the pages it encodes. *)
Abbreviation GoPdf := (list Page).
Abbreviation Buffer := (list Page).

Definition AddPage (pdf : GoPdf) : GoPdf := pdf ++ [{| filled := false; artwork := None |}].

(** Drawing acts on the current page, the last one added. *)
Definition onCurrentPage (f : Page -> Page) (pdf : GoPdf) : GoPdf :=
  match length pdf with
  | O => pdf
  | S n => alter f n pdf
  end.

Definition Rectangle (pdf : GoPdf) : GoPdf :=
  onCurrentPage (fun p => {| filled := true; artwork := artwork p |}) pdf.

Definition ImageByHolder (holder : list Byte.byte) (pdf : GoPdf) : GoPdf :=
  onCurrentPage (fun p => {| filled := filled p; artwork := Some holder |}) pdf.

(* ===================================================================== *)
(** ** Jobs and the job store *)
(* ===================================================================== *)

Record GrimoireJob := {
  ID : string;
  Status : string;   (* "queued", "parse", "fetch", "generate", "complete", "error" *)
  PDF : option Buffer;
  Error : option Err;
  CreatedAt : Z
}.

Record DecklistTask := {
  JobID : string;
  Decklist : string
}.

(** [uuid.New().String()] and [time.Now()] are given by the caller. *)
Definition NewGrimoireJob (uuid : string) (now : Z) : GrimoireJob :=
  {| ID := uuid; Status := "queued"; PDF := None; Error := None; CreatedAt := now |}.

Definition setStatus (status : string) (j : GrimoireJob) : GrimoireJob :=
  {| ID := ID j; Status := status; PDF := PDF j; Error := Error j; CreatedAt := CreatedAt j |}.

Definition setError (err : Err) (j : GrimoireJob) : GrimoireJob :=
  {| ID := ID j; Status := "error"; PDF := PDF j; Error := Some err; CreatedAt := CreatedAt j |}.

Definition setPDF (pdf : Buffer) (j : GrimoireJob) : GrimoireJob :=
  {| ID := ID j; Status := Status j; PDF := Some pdf; Error := Error j; CreatedAt := CreatedAt j |}.

Definition GetStatus (j : GrimoireJob) : string * option Err := (Status j, Error j).

Definition GetPDF (j : GrimoireJob) : option Buffer := PDF j.

(** Each of the three setters runs under the job's lock, so a reader sees
    the job only between two of them.  A worker's run is the list of the
    setters it calls. *)
Inductive JobOp :=
| OpSetStatus (status : string)
| OpSetError (err : Err)
| OpSetPDF (pdf : Buffer).

Definition applyOp (op : JobOp) (j : GrimoireJob) : GrimoireJob :=
  match op with
  | OpSetStatus s => setStatus s j
  | OpSetError e => setError e j
  | OpSetPDF b => setPDF b j
  end.

Definition applyOps (ops : list JobOp) (j : GrimoireJob) : GrimoireJob :=
  foldl (fun j op => applyOp op j) j ops.

(** The states a reader can observe during a run: the job before the run
    and after each setter. *)
Fixpoint observable (ops : list JobOp) (j : GrimoireJob) : list GrimoireJob :=
  match ops with
  | [] => [j]
  | op :: ops' => j :: observable ops' (applyOp op j)
  end.

(** The package variable [jobs] (a [sync.Map] from id to job). *)
Abbreviation JobStore := (gmap string GrimoireJob).

Definition GetJob (id : string) (jobs : JobStore) : option GrimoireJob := jobs !! id.

Definition GetAllJobs (jobs : JobStore) : JobStore := jobs.

(** Modelled from the spec: the task queue of [golang-queue/queue], created
    in [InitQueue] with [WithQueueSize(100)]: a bounded queue; a submission
    that would exceed the capacity fails, as does one after [Release]. *)
Record TaskQueue := {
  pending : list DecklistTask;
  queueSize : nat;
  released : bool
}.

Definition InitQueue : TaskQueue :=
  {| pending := []; queueSize := 100; released := false |}.

Definition Queue (task : DecklistTask) (q : TaskQueue) : TaskQueue * option Err :=
  if released q then (q, Some ErrQueueShutdown)
  else if (queueSize q <=? length (pending q))%nat then (q, Some ErrMaxCapacity)
  else ({| pending := pending q ++ [task]; queueSize := queueSize q; released := released q |},
        None).

Definition CreateJob (uuid : string) (now : Z) (decklist : string)
    (q : TaskQueue) (jobs : JobStore)
  : TaskQueue * JobStore * (option GrimoireJob * option Err) :=
  let jobInstance := NewGrimoireJob uuid now in
  let jobs1 := <[ID jobInstance := jobInstance]> jobs in
  let task := {| JobID := ID jobInstance; Decklist := decklist |} in
  match Queue task q with
  | (q1, Some err) => (q1, delete (ID jobInstance) jobs1, (None, Some err))
  | (q1, None) => (q1, jobs1, (Some jobInstance, None))
  end.

(** One cycle of [cleanupJobs] (the body of the ticker loop).  [scanTime id]
    is the clock when [time.Since] is evaluated for the job stored under
    [id] during the [Range]. *)
Definition cleanupCycle (scanTime : string -> Z) (jobs : JobStore) : JobStore :=
  let toDelete :=
    foldl (fun acc kv =>
             if 1 * Hour <? Since (scanTime kv.1) (CreatedAt kv.2)
             then acc ++ [kv.1] else acc)
          [] (map_to_list jobs) in
  foldl (fun m id => delete id m) jobs toDelete.

(* ===================================================================== *)
(** ** Packages [strings] and [strconv] *)
(* ===================================================================== *)

(** Go strings are byte strings; so are [string]s here. *)
Definition LF : string := String (Ascii.ascii_of_nat 10) "".
Definition CR : string := String (Ascii.ascii_of_nat 13) "".
Definition CRLF : string := CR +:+ LF.

Definition code (c : ascii) : N := Ascii.N_of_ascii c.

Fixpoint dropString (n : nat) (s : string) : string :=
  match n, s with
  | S n', String _ s' => dropString n' s'
  | _, _ => s
  end.

(** [strings.ReplaceAll(s, old, new)] for a non-empty [old] (the only use
    the program makes of it): non-overlapping occurrences, left to right.
    [skip] counts the bytes of a replaced occurrence still to pass over. *)
Fixpoint replaceFrom (old new : string) (skip : nat) (s : string) : string :=
  match s with
  | EmptyString => EmptyString
  | String c s' =>
      match skip with
      | S k => replaceFrom old new k s'
      | O =>
          if String.prefix old s
          then new +:+ replaceFrom old new (String.length old - 1) s'
          else String c (replaceFrom old new 0 s')
      end
  end.

Definition ReplaceAll (s old new : string) : string := replaceFrom old new 0 s.

(** [strings.Split(s, sep)] for a non-empty [sep]; [cur] is the piece read
    so far.  The result has one piece more than there are separators. *)
Fixpoint splitFrom (sep : string) (skip : nat) (cur : string) (s : string) : list string :=
  match s with
  | EmptyString => [cur]
  | String c s' =>
      match skip with
      | S k => splitFrom sep k cur s'
      | O =>
          if String.prefix sep s
          then cur :: splitFrom sep (String.length sep - 1) EmptyString s'
          else splitFrom sep 0 (cur +:+ String c EmptyString) s'
      end
  end.

Definition Split (s sep : string) : list string := splitFrom sep 0 EmptyString s.

(** [unicode.IsSpace] on the UTF-8 encoding: the number of bytes of the
    white-space character at the head of the byte codes [cs], or 0.  The
    characters are U+0009..U+000D, U+0020, U+0085, U+00A0, U+1680,
    U+2000..U+200A, U+2028, U+2029, U+202F, U+205F and U+3000. *)
Definition isASCIISpace (c : N) : bool :=
  ((9 <=? c) && (c <=? 13) || (c =? 32))%N.

Definition leadingSpace (cs : list N) : nat :=
  match cs with
  | c :: rest =>
      if isASCIISpace c then 1%nat
      else match c, rest with
           | 194%N, c1 :: _ => if ((c1 =? 133) || (c1 =? 160))%N then 2%nat else 0%nat
           | 225%N, 154%N :: 128%N :: _ => 3%nat
           | 226%N, 128%N :: c2 :: _ =>
               if ((128 <=? c2) && (c2 <=? 138) || (c2 =? 168) || (c2 =? 169) || (c2 =? 175))%N
               then 3%nat else 0%nat
           | 226%N, 129%N :: 159%N :: _ => 3%nat
           | 227%N, 128%N :: 128%N :: _ => 3%nat
           | _, _ => 0%nat
           end
  | [] => 0%nat
  end.

(** The same for the character at the end of a string, read on the
    reversed byte codes. *)
Definition trailingSpace (rcs : list N) : nat :=
  match rcs with
  | c :: rest =>
      if isASCIISpace c then 1%nat
      else match c, rest with
           | c1, 194%N :: _ => if ((c1 =? 133) || (c1 =? 160))%N then 2%nat else 0%nat
           | 128%N, 154%N :: 225%N :: _ => 3%nat
           | 159%N, 129%N :: 226%N :: _ => 3%nat
           | 128%N, 128%N :: 227%N :: _ => 3%nat
           | c2, 128%N :: 226%N :: _ =>
               if ((128 <=? c2) && (c2 <=? 138) || (c2 =? 168) || (c2 =? 169) || (c2 =? 175))%N
               then 3%nat else 0%nat
           | _, _ => 0%nat
           end
  | [] => 0%nat
  end.

(** Strip white-space characters from the head of [cs], as long as
    [space] finds one. *)
Fixpoint trimCodes (space : list N -> nat) (skip : nat) (cs : list N) : list N :=
  match cs with
  | [] => []
  | _ :: cs' =>
      match skip with
      | S k => trimCodes space k cs'
      | O =>
          match space cs with
          | O => cs
          | S k => trimCodes space k cs'
          end
      end
  end.

Definition codesOf (s : string) : list N := map code (String.list_ascii_of_string s).
Definition stringOf (cs : list N) : string := String.string_of_list_ascii (map Ascii.ascii_of_N cs).

(** [strings.TrimSpace]. *)
Definition TrimSpace (s : string) : string :=
  let left := trimCodes leadingSpace 0 (codesOf s) in
  stringOf (rev (trimCodes trailingSpace 0 (rev left))).

(** [strconv.Atoi]: an optional sign and decimal digits, within the range
    of a 64-bit [int]; [None] stands for its error. *)
Definition digit (c : ascii) : option Z :=
  let n := code c in
  if ((48 <=? n) && (n <=? 57))%N then Some (Z.of_N n - 48) else None.

Fixpoint digitsValue (acc : Z) (s : string) : option Z :=
  match s with
  | EmptyString => Some acc
  | String c s' =>
      match digit c with
      | Some d => digitsValue (10 * acc + d) s'
      | None => None
      end
  end.

Definition Atoi (s : string) : option Z :=
  let '(neg, body) :=
    match s with
    | String "-" s' => (true, s')
    | String "+" s' => (false, s')
    | _ => (false, s)
    end in
  match body with
  | EmptyString => None
  | _ =>
      match digitsValue 0 body with
      | Some v =>
          let v := if neg then - v else v in
          if (minDuration <=? v) && (v <=? maxDuration) then Some v else None
      | None => None
      end
  end.

(* ===================================================================== *)
(** ** Package [regexp] *)
(* ===================================================================== *)

(** [regexp.MustCompile(pattern).FindStringSubmatch(s)]: the whole match
    followed by the groups, or [None] for Go's [nil]. *)
Class Regexp := FindStringSubmatch : string -> string -> option (list string).

(** The two patterns of [ParseCard]. *)
Definition strictPattern : string :=
  "^(\d+)\s+(.+?)\s+\(([^)]+)\)\s+([^\s\r\n]+)$".
Definition fallbackPattern : string :=
  "^(\d+)\s+(.+?)\s+\(([^)]+)\)\s+(.+)$".

(** An engine for these two patterns, by backtracking in the order of
    preference of the pattern: a greedy piece tries its longest extent
    first, the lazy name its shortest.  [pieces p s] lists the ways to cut
    a non-empty prefix of bytes satisfying [p] off [s], shortest first. *)
Fixpoint pieces (p : ascii -> bool) (s : string) : list (string * string) :=
  match s with
  | EmptyString => []
  | String c s' =>
      if p c
      then (String c EmptyString, s')
             :: map (fun '(a, b) => (String c a, b)) (pieces p s')
      else []
  end.

Definition lazyPieces := pieces.
Definition greedyPieces (p : ascii -> bool) (s : string) := rev (pieces p s).

Definition reDigit (c : ascii) : bool := ((48 <=? code c) && (code c <=? 57))%N.
(** [\s] is [[\t\n\f\r ]]. *)
Definition reSpace (c : ascii) : bool :=
  let n := code c in ((n =? 9) || (n =? 10) || (n =? 12) || (n =? 13) || (n =? 32))%N.
(** [.] is any character but a line feed. *)
Definition reAny (c : ascii) : bool := negb (code c =? 10)%N.
Definition reNotParen (c : ascii) : bool := negb (code c =? 41)%N.
Definition reNotSpace (c : ascii) : bool := negb (reSpace c).

Definition literal (c : ascii) (s : string) : list string :=
  match s with
  | String c' s' => if decide (c = c') then [s'] else []
  | EmptyString => []
  end.

Definition matchLine (tail : ascii -> bool) (s : string) : option (list string) :=
  head (
    '(qty, s1) ← greedyPieces reDigit s;
    '(_, s2) ← greedyPieces reSpace s1;
    '(name, s3) ← lazyPieces reAny s2;
    '(_, s4) ← greedyPieces reSpace s3;
    s5 ← literal "(" s4;
    '(set, s6) ← greedyPieces reNotParen s5;
    s7 ← literal ")" s6;
    '(_, s8) ← greedyPieces reSpace s7;
    '(coll, s9) ← greedyPieces tail s8;
    if decide (s9 = EmptyString) then [[s; qty; name; set; coll]] else []).

Definition backtracking : Regexp := fun pattern s =>
  if decide (pattern = strictPattern) then matchLine reNotSpace s
  else if decide (pattern = fallbackPattern) then matchLine reAny s
  else None.

(* ===================================================================== *)
(** ** The outside world *)
(* ===================================================================== *)

Inductive result (A : Type) : Type :=
| Ok (a : A)
| Fail (e : Err).
Arguments Ok {A} a.
Arguments Fail {A} e.

(** The outcome of [http.Get]: an error, or a response with its status
    code and body. *)
Inductive HttpResult (B : Type) : Type :=
| TransportError
| Response (StatusCode : Z) (Body : B).
Arguments TransportError {B}.
Arguments Response {B} StatusCode Body.

Definition StatusOK : Z := 200.
Definition StatusTooManyRequests : Z := 429.

Record Card := {
  Quantity : Z;
  Name : string;
  CardSet : string;            (* the field [Set] *)
  CollectorNumber : string;
  Layout : string;
  ImageURIs : gmap string string
}.

(** [Card{}] *)
Definition emptyCard : Card :=
  {| Quantity := 0; Name := ""; CardSet := ""; CollectorNumber := "";
     Layout := ""; ImageURIs := ∅ |}.

(** The keys of a catalog answer that [json.Decode] stores into a [Card]
    (keys match field names without regard to case); a key that is absent
    leaves the field as it is. *)
Record CardJSON := {
  jsonQuantity : option Z;
  jsonName : option string;
  jsonSet : option string;
  jsonCollectorNumber : option string;
  jsonLayout : option string;
  jsonImageURIs : option (gmap string string)
}.

Definition Decode (j : CardJSON) (card : Card) : Card :=
  {| Quantity := default (Quantity card) (jsonQuantity j);
     Name := default (Name card) (jsonName j);
     CardSet := default (CardSet card) (jsonSet j);
     CollectorNumber := default (CollectorNumber card) (jsonCollectorNumber j);
     Layout := default (Layout card) (jsonLayout j);
     ImageURIs := default (ImageURIs card) (jsonImageURIs j) |}.

Record World := {
  (** the order in which the resolution goroutines obtain the semaphore *)
  semaphoreOrder : list nat;
  (** the order in which the image goroutines finish *)
  completionOrder : list nat;
  (** the iteration order of the k-th [range] over a map *)
  rangeOrder : nat -> list nat;
  (** [client.Get(url)]: for the line at a position of the decklist, the
      call of [ParseCard] (0, 1, 2) and the attempt within that call; the
      body is the decoded JSON, [None] when it does not decode *)
  clientGet : nat -> nat -> nat -> string -> HttpResult (option CardJSON);
  (** [http.Get(uri)]: for the index of the uri and the attempt; the body
      is what [io.ReadAll] returns, [None] when it fails *)
  httpGet : nat -> nat -> string -> HttpResult (option (list Byte.byte));
  (** [image.Decode], [jpeg.Encode] of the redrawn image,
      [gopdf.ImageHolderByReader]: [None] stands for an error *)
  imageDecode : list Byte.byte -> option (list Byte.byte);
  jpegEncode : list Byte.byte -> option (list Byte.byte);
  ImageHolderByReader : list Byte.byte -> option (list Byte.byte);
  (** [pdf.WriteTo(&buf)] succeeds *)
  WriteTo : GoPdf -> bool
}.

(** A choice of an order for a list: the k-th pick, reduced modulo the
    number of elements left, selects the k-th element of the result.  Every
    permutation is the result of some picks; no picks keep the list. *)
Fixpoint shuffleFrom {A : Type} (n : nat) (picks : list nat) (l : list A) : list A :=
  match n with
  | O => []
  | S n' =>
      match l with
      | [] => []
      | x :: _ =>
          let i := Nat.modulo (hd 0%nat picks) (length l) in
          nth i l x :: shuffleFrom n' (tl picks) (take i l ++ drop (S i) l)
      end
  end.

Definition shuffle {A : Type} (picks : list nat) (l : list A) : list A :=
  shuffleFrom (length l) picks l.

(** [for key, value := range m] *)
Definition rangeMap (picks : list nat) (m : gmap string string) : list (string * string) :=
  shuffle picks (map_to_list m).

Inductive Event :=
| EvRateLimitWait
| EvGet (url : string)
| EvSleep (d : Z).

(* ===================================================================== *)
(** ** [ParseCard] *)
(* ===================================================================== *)

Definition maxRetries : Z := 3.
Definition baseDelay : Z := 100 * Millisecond.

Definition cardURL (card : Card) : string :=
  "https://api.scryfall.com/cards/" +:+ CardSet card +:+ "/" +:+ CollectorNumber card.

(** The loop [for attempt := 0; attempt < maxRetries; attempt++]; [fuel]
    is the number of iterations left, [maxRetries - attempt]. *)
Fixpoint lookupLoop (get : nat -> string -> HttpResult (option CardJSON))
    (card : Card) (fuel : nat) (attempt : nat) : list Event * result Card :=
  match fuel with
  | O => ([], Ok card)
  | S fuel' =>
      let url := cardURL card in
      let call := [EvRateLimitWait; EvGet url] in
      let continue (delay : Z) :=
        let '(events, r) := lookupLoop get card fuel' (S attempt) in
        (call ++ [EvSleep delay] ++ events, r) in
      match get attempt url with
      | TransportError =>
          if Z.of_nat attempt =? maxRetries - 1
          then (call, Fail (ErrHTTPRequestFailed maxRetries))
          else continue (dmul baseDelay (shl1 (Z.of_nat attempt)))
      | Response code body =>
          if code =? StatusTooManyRequests then
            if Z.of_nat attempt =? maxRetries - 1
            then (call, Fail (ErrAPIRateLimited maxRetries))
            else continue (dmul (5 * Second) (shl1 (Z.of_nat attempt)))
          else if negb (code =? StatusOK) then
            (call, Fail (ErrAPIStatus code))
          else
            match body with
            | None => (call, Fail ErrJSONDecode)
            | Some j => (call, Ok (Decode j card))
            end
      end
  end.

Definition frontURI (card : Card) : string :=
  cardURL card +:+ "?format=image&version=png".
Definition backURI (card : Card) : string :=
  cardURL card +:+ "?format=image&version=png&face=back".

Definition withImageURIs (card : Card) : Card :=
  let uris : gmap string string :=
    if decide (Layout card = "transform" \/ Layout card = "modal_dfc")
    then <["front" := frontURI card]> (<["back" := backURI card]> ∅)
    else <["front" := frontURI card]> ∅ in
  {| Quantity := Quantity card; Name := Name card; CardSet := CardSet card;
     CollectorNumber := CollectorNumber card; Layout := Layout card;
     ImageURIs := uris |}.

(** [matches[i]] *)
Definition group (i : nat) (matches : list string) : string := nth i matches "".

Definition ParseCard `{Regexp}
    (get : nat -> string -> HttpResult (option CardJSON)) (line : string)
  : list Event * result Card :=
  let line := TrimSpace line in
  if decide (line = "") then ([], Fail ErrEmptyLine)
  else
    let found :=
      match FindStringSubmatch strictPattern line with
      | Some matches => Some matches
      | None =>
          match FindStringSubmatch fallbackPattern line with
          | Some matches => Some (<[4%nat := TrimSpace (group 4 matches)]> matches)
          | None => None
          end
      end in
    match found with
    | None => ([], Fail (ErrCouldNotParse line))
    | Some matches =>
        match Atoi (group 1 matches) with
        | None => ([], Fail ErrInvalidQuantity)
        | Some quantity =>
            let card :=
              {| Quantity := quantity;
                 Name := TrimSpace (group 2 matches);
                 CardSet := group 3 matches;
                 CollectorNumber := group 4 matches;
                 Layout := ""; ImageURIs := ∅ |} in
            match lookupLoop get card (Z.to_nat maxRetries) 0 with
            | (events, Fail e) => (events, Fail e)
            | (events, Ok card) => (events, Ok (withImageURIs card))
            end
        end
    end.

(* ===================================================================== *)
(** ** [FetchImageWithRetry] and [convertTo8Bit] *)
(* ===================================================================== *)

(** The loop [for attempt := 0; attempt <= maxRetries; attempt++]; [fuel]
    is the number of iterations left. *)
Fixpoint fetchLoop (get : nat -> string -> HttpResult (option (list Byte.byte)))
    (uri : string) (retries : Z) (fuel : nat) (attempt : nat) (lastErr : option Err)
  : list Event * result (list Byte.byte) :=
  match fuel with
  | O => ([], Fail (ErrFetchImage (retries + 1) lastErr))
  | S fuel' =>
      let backoff :=
        if 0 <? Z.of_nat attempt
        then [EvSleep (dmul (shl1 (Z.of_nat attempt - 1)) Second)] else [] in
      let call := backoff ++ [EvRateLimitWait; EvGet uri] in
      let continue (more : list Event) (err : Err) :=
        let '(events, r) := fetchLoop get uri retries fuel' (S attempt) (Some err) in
        (call ++ more ++ events, r) in
      match get attempt uri with
      | TransportError => continue [] ErrTransport
      | Response code body =>
          if negb (code =? StatusOK) then
            continue
              (if (code =? StatusTooManyRequests) && (Z.of_nat attempt <? retries)
               then [EvSleep (dmul (5 * Second) (shl1 (Z.of_nat attempt)))] else [])
              (ErrHTTPStatus code)
          else
            match body with
            | None => continue [] ErrRead
            | Some bytes => (call, Ok bytes)
            end
      end
  end.

Definition FetchImageWithRetry (get : nat -> string -> HttpResult (option (list Byte.byte)))
    (uri : string) (retries : Z) : list Event * result (list Byte.byte) :=
  fetchLoop get uri retries (Z.to_nat (retries + 1)) 0 None.

Definition convertTo8Bit (w : World) (imageData : list Byte.byte) : result (list Byte.byte) :=
  match imageDecode w imageData with
  | None => Fail ErrDecodeImage
  | Some img =>
      match jpegEncode w img with
      | None => Fail ErrEncodeImage
      | Some jpeg => Ok jpeg
      end
  end.

(* ===================================================================== *)
(** ** [GeneratePDF] *)
(* ===================================================================== *)

(** The inner loops over one card: [n] copies, each a [range] over the
    card's [ImageURIs]; [k] numbers the [range] statements executed.  The
    result pairs each uri with the card's name ([allURIs], [cardNames]). *)
Fixpoint copies (w : World) (card : Card) (n : nat) (k : nat) : list (string * string) :=
  match n with
  | O => []
  | S n' =>
      map (fun kv => (kv.2, Name card)) (rangeMap (rangeOrder w k) (ImageURIs card))
        ++ copies w card n' (S k)
  end.

Fixpoint collectURIs (w : World) (cards : list Card) (k : nat) : list (string * string) :=
  match cards with
  | [] => []
  | card :: rest =>
      let n := Z.to_nat (Quantity card) in
      copies w card n k ++ collectURIs w rest (k + n)
  end.

Definition allURIsOf (w : World) (cards : list Card) : list string :=
  (collectURIs w cards 0).*1.

(** What the goroutine of index [i] obtains. *)
Definition fetched (w : World) (i : nat) (uri : string) : result (list Byte.byte) :=
  (FetchImageWithRetry (httpGet w i) uri 2).2.

(** The goroutine of index [i] stores into slot [i] of [imageData] or of
    [errs]. *)
Definition storeResult (w : World) (allURIs : list string)
    (slots : list (list Byte.byte) * list (option Err)) (i : nat)
  : list (list Byte.byte) * list (option Err) :=
  match allURIs !! i with
  | None => slots
  | Some uri =>
      match fetched w i uri with
      | Fail err => (slots.1, <[i := Some err]> slots.2)
      | Ok body => (<[i := body]> slots.1, slots.2)
      end
  end.

(** The fan-out up to [wg.Wait()]: both slices are made with one slot per
    uri, and the goroutines finish in the world's order. *)
Definition fetchAll (w : World) (allURIs : list string)
  : list (list Byte.byte) * list (option Err) :=
  let n := length allURIs in
  foldl (storeResult w allURIs)
        (replicate n [], replicate n None)
        (shuffle (completionOrder w) (seq 0 n)).

(** One iteration of the page loop for an index whose fetch succeeded. *)
Definition addCardPage (w : World) (data : list Byte.byte) (pdf : GoPdf) : GoPdf :=
  let pdf := AddPage pdf in
  let pdf := Rectangle pdf in
  match convertTo8Bit w data with
  | Fail _ => pdf
  | Ok converted =>
      match ImageHolderByReader w converted with
      | None => pdf
      | Some holder => ImageByHolder holder pdf
      end
  end.

Definition pageLoop (w : World) (n : nat)
    (imageData : list (list Byte.byte)) (errs : list (option Err)) (pdf : GoPdf) : GoPdf :=
  foldl (fun pdf i =>
           match errs !! i with
           | Some (Some _) => pdf
           | _ => addCardPage w (default [] (imageData !! i)) pdf
           end)
        pdf (seq 0 n).

Definition writePDF (w : World) (pdf : GoPdf) : result Buffer :=
  if WriteTo w pdf then Ok pdf else Fail ErrWrite.

Definition GeneratePDF (w : World) (cards : list Card) : result Buffer :=
  let pdf : GoPdf := [] in
  let allURIs := allURIsOf w cards in
  if (length allURIs =? 0)%nat then writePDF w pdf
  else
    let '(imageData, errs) := fetchAll w allURIs in
    writePDF w (pageLoop w (length allURIs) imageData errs pdf).

(* ===================================================================== *)
(** ** [ProcessDecklistHandler] *)
(* ===================================================================== *)

Definition nonEmptyLinesOf (decklist : string) : list string :=
  let decklist := ReplaceAll decklist CRLF LF in
  let decklist := ReplaceAll decklist CR LF in
  let lines := Split decklist LF in
  filter (fun line => TrimSpace line ≠ "") lines.

(** The goroutine's loop [for attempt := 0; attempt < 3; attempt++] around
    [ParseCard]; [cur] holds [card, err] of the last call. *)
Fixpoint parseAttempts `{Regexp} (w : World) (pos : nat) (line : string)
    (fuel : nat) (attempt : nat) (cur : result Card) : list Event * result Card :=
  match fuel with
  | O => ([], cur)
  | S fuel' =>
      match ParseCard (clientGet w pos attempt) line with
      | (events, Ok card) => (events, Ok card)
      | (events, Fail err) =>
          let pause :=
            if Z.of_nat attempt <? 2
            then [EvSleep (dmul Second (Z.of_nat attempt + 1))] else [] in
          let '(events', r) := parseAttempts w pos line fuel' (S attempt) (Fail err) in
          (events ++ pause ++ events', r)
      end
  end.

(** One resolution goroutine: what it does and what it sends on
    [resultsChan]. *)
Definition resolveLine `{Regexp} (w : World) (pos : nat) (line : string)
  : list Event * result Card :=
  match parseAttempts w pos line 3 0 (Ok emptyCard) with
  | (events, Fail err) => (events, Fail (ErrFailedToParse line err))
  | (events, Ok card) => (events, Ok card)
  end.

(** The contents of [resultsChan] when it is closed: the goroutines hold
    the semaphore one at a time, in the world's order, and each sends its
    result before it releases it. *)
Definition resultsChan `{Regexp} (w : World) (nonEmptyLines : list string)
  : list (result Card) :=
  map (fun '(pos, line) => (resolveLine w pos line).2)
      (shuffle (semaphoreOrder w) (imap (fun pos line => (pos, line)) nonEmptyLines)).

(** The collecting loop [for res := range resultsChan]. *)
Definition collect (results : list (result Card)) : list Card * list Err :=
  foldl (fun '(cards, errors) res =>
           match res with
           | Fail err => (cards, errors ++ [err])
           | Ok card => (cards ++ [card], errors)
           end)
        ([], []) results.

(** The handler for a job found in the store: the setters it calls on the
    job, in order, and the error it returns. *)
Definition processJob `{Regexp} (w : World) (decklist : string) : list JobOp * option Err :=
  let nonEmptyLines := nonEmptyLinesOf decklist in
  if (length nonEmptyLines =? 0)%nat then
    ([OpSetStatus "parse"; OpSetStatus "complete"], None)
  else
    let '(cards, errors) := collect (resultsChan w nonEmptyLines) in
    if (0 <? length errors)%nat then
      let err := ErrEncountered (Z.of_nat (length errors)) errors in
      ([OpSetStatus "parse"; OpSetError err], Some err)
    else
      match GeneratePDF w cards with
      | Fail err =>
          ([OpSetStatus "parse"; OpSetStatus "fetch"; OpSetStatus "generate";
            OpSetError (ErrPDFGeneration err)], Some err)
      | Ok pdfBuffer =>
          ([OpSetStatus "parse"; OpSetStatus "fetch"; OpSetStatus "generate";
            OpSetPDF pdfBuffer; OpSetStatus "complete"], None)
      end.

(** The task payload is the JSON of the [DecklistTask]; marshalling and
    unmarshalling return the task. *)
Definition ProcessDecklistHandler `{Regexp} (w : World) (dt : DecklistTask) (jobs : JobStore)
  : JobStore * option Err :=
  match GetJob (JobID dt) jobs with
  | None => (jobs, Some (ErrJobNotFound (JobID dt)))
  | Some job =>
      let '(ops, err) := processJob w (Decklist dt) in
      (<[JobID dt := applyOps ops job]> jobs, err)
  end.

(* ===================================================================== *)
(** ** The API server's handlers *)
(* ===================================================================== *)

Inductive SubmitResponse :=
| SubmitBadRequest                   (* 400 "Decklist is required" *)
| SubmitFailed (err : Err)           (* 500 "Failed to create job: ..." *)
| SubmitQueued (job_id : string).    (* 200, status "queued" *)

Definition handleSubmit (uuid : string) (now : Z) (decklist : string)
    (q : TaskQueue) (jobs : JobStore) : TaskQueue * JobStore * SubmitResponse :=
  if decide (decklist = "") then (q, jobs, SubmitBadRequest)
  else
    match CreateJob uuid now decklist q jobs with
    | (q1, jobs1, (_, Some err)) => (q1, jobs1, SubmitFailed err)
    | (q1, jobs1, (jobInstance, None)) =>
        (q1, jobs1, SubmitQueued (from_option ID "" jobInstance))
    end.

Inductive PDFResponse :=
| PDFJobNotFound                     (* 404 "Job not found" *)
| PDFJobFailed (err : Err)           (* 500 "Job failed: ..." *)
| PDFNotComplete (status : string)   (* 400 "Job not complete, current status: ..." *)
| PDFNotAvailable                    (* 500 "PDF not available" *)
| PDFSend (buf : Buffer).            (* 200, the document *)

Definition handleGetJobPDF (jobID : string) (jobs : JobStore) : PDFResponse :=
  match GetJob jobID jobs with
  | None => PDFJobNotFound
  | Some jobInstance =>
      let '(status, err) := GetStatus jobInstance in
      match err with
      | Some e => PDFJobFailed e
      | None =>
          if decide (status ≠ "complete") then PDFNotComplete status
          else
            match GetPDF jobInstance with
            | None => PDFNotAvailable
            | Some buf => PDFSend buf
            end
      end
  end.

(* ===================================================================== *)
(** ** Vocabulary of the properties *)
(* ===================================================================== *)

(** Consecutive values are at least 100 ms apart, starting after [prev]. *)
Fixpoint spacedFrom (prev : Z) (ts : list Z) : Prop :=
  match ts with
  | [] => True
  | t :: ts' => prev + 100 * Millisecond <= t /\ spacedFrom t ts'
  end.

(** The number of HTTP requests among some events. *)
Fixpoint countGets (events : list Event) : nat :=
  match events with
  | [] => 0%nat
  | EvGet _ :: rest => S (countGets rest)
  | _ :: rest => countGets rest
  end.

(** The sleeps among some events, in order. *)
Definition sleeps (events : list Event) : list Z :=
  omap (fun e => match e with EvSleep d => Some d | _ => None end) events.

(** The lookup loop of [ParseCard] from its iteration [attempt] on. *)
Definition lookupFrom (get : nat -> string -> HttpResult (option CardJSON))
    (card : Card) (attempt : nat) : list Event * result Card :=
  lookupLoop get card (Z.to_nat maxRetries - attempt) attempt.

(** What slot [i] of [imageData] and of [errs] is to hold. *)
Definition bodyOf (w : World) (allURIs : list string) (i : nat) : list Byte.byte :=
  match allURIs !! i with
  | Some uri => match fetched w i uri with Ok body => body | Fail _ => [] end
  | None => []
  end.

Definition errOf (w : World) (allURIs : list string) (i : nat) : option Err :=
  match allURIs !! i with
  | Some uri => match fetched w i uri with Ok _ => None | Fail e => Some e end
  | None => None
  end.

(** The page the assembler produces from fetched image bytes. *)
Definition cardPage (w : World) (data : list Byte.byte) : Page :=
  {| filled := true;
     artwork := match convertTo8Bit w data with
                | Ok converted => ImageHolderByReader w converted
                | Fail _ => None
                end |}.

(** The page of index [i], if its fetch succeeded. *)
Definition pageOfIndex (w : World) (allURIs : list string) (i : nat) : list Page :=
  match allURIs !! i with
  | Some uri =>
      match fetched w i uri with
      | Ok body => [cardPage w body]
      | Fail _ => []
      end
  | None => []
  end.

(** The pages of the indices whose fetch succeeded, by increasing index. *)
Definition pagesInOrder (w : World) (allURIs : list string) : list Page :=
  flat_map (pageOfIndex w allURIs) (seq 0 (length allURIs)).

Definition fetchSucceeds (w : World) (allURIs : list string) (i : nat) : bool :=
  match allURIs !! i with
  | Some uri => match fetched w i uri with Ok _ => true | Fail _ => false end
  | None => false
  end.

(** The artwork of index [i] was fetched, converted and placed. *)
Definition artworkPlaced (w : World) (allURIs : list string) (i : nat) : bool :=
  match allURIs !! i with
  | Some uri =>
      match fetched w i uri with
      | Ok body => bool_decide (is_Some (artwork (cardPage w body)))
      | Fail _ => false
      end
  | None => false
  end.

(** The number of faces the catalog's layout stands for. *)
Definition faceCount (layout : string) : Z :=
  if decide (layout = "transform" \/ layout = "modal_dfc") then 2 else 1.

Fixpoint expectedPages (cards : list Card) : Z :=
  match cards with
  | [] => 0
  | card :: rest => Quantity card * faceCount (Layout card) + expectedPages rest
  end.

(** A card as [ParseCard] returns it. *)
Definition resolved `{Regexp} (card : Card) : Prop :=
  exists get line events, ParseCard get line = (events, Ok card).

Definition terminal (j : GrimoireJob) : Prop :=
  Status j = "complete" \/ Status j = "error".

(** A job as [NewGrimoireJob] makes it. *)
Definition fresh (j : GrimoireJob) : Prop :=
  Status j = "queued" /\ PDF j = None /\ Error j = None.

(* ===================================================================== *)
(** ** Sample worlds and decklists *)
(* ===================================================================== *)

Definition catalogAnswer (layout : string) : CardJSON :=
  {| jsonQuantity := None; jsonName := None; jsonSet := None;
     jsonCollectorNumber := None; jsonLayout := Some layout; jsonImageURIs := None |}.

(** A world in which the catalog answers every lookup with status 200 and
    the layout [layoutAt pos], an image download answers with status 200
    and the bytes of its uri unless [imageDown] holds of its index (then
    every attempt is a transport error), the codecs succeed and keep the
    bytes unless [decodable] is false, and the document is written. *)
Definition sampleWorld (sem : list nat) (rng : nat -> list nat)
    (layoutAt : nat -> string) (imageDown : nat -> bool) (decodable : bool) : World :=
  {| semaphoreOrder := sem;
     completionOrder := [];
     rangeOrder := rng;
     clientGet := fun pos _ _ _ => Response StatusOK (Some (catalogAnswer (layoutAt pos)));
     httpGet := fun i _ uri =>
       if imageDown i then TransportError
       else Response StatusOK (Some (String.list_byte_of_string uri));
     imageDecode := fun data => if decodable then Some data else None;
     jpegEncode := Some;
     ImageHolderByReader := Some;
     WriteTo := fun _ => true |}.

(** Goroutines in program order, maps in key order, single-faced cards. *)
Definition calmWorld : World :=
  sampleWorld [] (fun _ => []) (fun _ => "normal") (fun _ => false) true.

(** The goroutine of the second line obtains the semaphore first. *)
Definition secondFirstWorld : World :=
  sampleWorld [1%nat] (fun _ => []) (fun _ => "normal") (fun _ => false) true.

(** Every card is a transform card, and every [range] over a map yields
    its second key first. *)
Definition backFirstWorld : World :=
  sampleWorld [] (fun _ => [1%nat]) (fun _ => "transform") (fun _ => false) true.

(** The card of the second line is a transform card. *)
Definition transformWorld : World :=
  sampleWorld [] (fun _ => []) (fun pos => if (pos =? 1)%nat then "transform" else "normal")
              (fun _ => false) true.

(** The image of index 1 cannot be downloaded. *)
Definition oneImageDownWorld : World :=
  sampleWorld [] (fun _ => []) (fun _ => "normal") (fun i => (i =? 1)%nat) true.

(** No image decodes. *)
Definition undecodableWorld : World :=
  sampleWorld [] (fun _ => []) (fun _ => "normal") (fun _ => false) false.

(** The catalog cannot be reached. *)
Definition offlineWorld : World :=
  {| semaphoreOrder := []; completionOrder := []; rangeOrder := fun _ => [];
     clientGet := fun _ _ _ _ => TransportError;
     httpGet := fun _ _ _ => TransportError;
     imageDecode := Some; jpegEncode := Some; ImageHolderByReader := Some;
     WriteTo := fun _ => true |}.

(** A catalog that fails to answer the first request, throttles the
    second and answers the third. *)
Definition flakyGet : nat -> string -> HttpResult (option CardJSON) :=
  fun attempt _ =>
    match attempt with
    | O => TransportError
    | S O => Response StatusTooManyRequests None
    | _ => Response StatusOK (Some (catalogAnswer "normal"))
    end.

Definition optCard : Card :=
  {| Quantity := 1; Name := "Opt"; CardSet := "xln"; CollectorNumber := "65";
     Layout := ""; ImageURIs := ∅ |}.

(** A queue holding 100 tasks, as many as [InitQueue] allows. *)
Definition fullQueue : TaskQueue :=
  {| pending := replicate 100 {| JobID := "j"; Decklist := "1 Opt (xln) 65" |};
     queueSize := 100; released := false |}.

(** Two jobs at a sweep that runs two hours after the first was created
    and thirty minutes after the second. *)
Definition sweepStore : JobStore :=
  <["old" := setStatus "complete" (NewGrimoireJob "old" 0)]>
    (<["young" := NewGrimoireJob "young" (90 * Minute)]> ∅).

Definition oneLine : string := "1 Opt (xln) 65".
Definition twoLines : string := "1 Opt (xln) 65" +:+ LF +:+ "2 Shock (m19) 156".
Definition threeLines : string :=
  "1 Opt (xln) 65" +:+ LF +:+ "1 Shock (m19) 156" +:+ CRLF +:+ "1 Duress (m19) 94".
Definition blankLines : string := " " +:+ LF +:+ "  " +:+ CRLF.

(** The uris of the artwork on the pages of a document, for the sample
    worlds, where the bytes of an image are those of its uri. *)
Definition pageURIs (doc : Buffer) : list string :=
  map (fun p => from_option String.string_of_list_byte "" (artwork p)) doc.

(** The cards the handler passes to [GeneratePDF]. *)
Definition cardsOf `{Regexp} (w : World) (decklist : string) : list Card :=
  (collect (resultsChan w (nonEmptyLinesOf decklist))).1.

(** The job after a run of the handler on a new job. *)
Definition jobAfter `{Regexp} (w : World) (decklist : string) : GrimoireJob :=
  applyOps (processJob w decklist).1 (NewGrimoireJob "job-1" 0).

(* ===================================================================== *)
(** ** Further handlers of the API server *)
(* ===================================================================== *)

(** The JSON answer of [handleGetJob]: 404, or the job's id, status and,
    when the job has an error, the error. *)
Inductive JobResponse :=
| JobNotFound
| JobInfo (job_id : string) (status : string) (error : option Err).

Definition handleGetJob (jobID : string) (jobs : JobStore) : JobResponse :=
  match GetJob jobID jobs with
  | None => JobNotFound
  | Some jobInstance =>
      let '(status, err) := GetStatus jobInstance in
      JobInfo jobID status err
  end.

(** The JSON answer of [handleGetAllJobs]: status and error by id. *)
Definition handleGetAllJobs (jobs : JobStore) : gmap string (string * option Err) :=
  GetStatus <$> GetAllJobs jobs.

(* ===================================================================== *)
(** ** Further vocabulary of the properties *)
(* ===================================================================== *)

(** Events made of sleeps and of requests that come directly after a call
    of [rateLimitWait]. *)
Inductive gated : list Event -> Prop :=
| gated_nil : gated []
| gated_sleep d events : gated events -> gated (EvSleep d :: events)
| gated_call url events : gated events -> gated (EvRateLimitWait :: EvGet url :: events).

(** The loop of [FetchImageWithRetry] from its iteration [attempt] on. *)
Definition fetchFrom (get : nat -> string -> HttpResult (option (list Byte.byte)))
    (uri : string) (retries : Z) (attempt : nat) (lastErr : option Err)
  : list Event * result (list Byte.byte) :=
  fetchLoop get uri retries (Z.to_nat (retries + 1) - attempt) attempt lastErr.

(** What one image download attempt yields: the bytes, or its error. *)
Definition fetchAttempt (r : HttpResult (option (list Byte.byte))) : result (list Byte.byte) :=
  match r with
  | TransportError => Fail ErrTransport
  | Response code body =>
      if negb (code =? StatusOK) then Fail (ErrHTTPStatus code)
      else match body with
           | None => Fail ErrRead
           | Some bytes => Ok bytes
           end
  end.

(** Whether a catalog answer makes [ParseCard] try again. *)
Definition retryable (r : HttpResult (option CardJSON)) : bool :=
  match r with
  | TransportError => true
  | Response code _ => code =? StatusTooManyRequests
  end.

Definition isOk {A : Type} (r : result A) : bool :=
  match r with Ok _ => true | Fail _ => false end.

Definition okOf {A : Type} (r : result A) : option A :=
  match r with Ok a => Some a | Fail _ => None end.

Definition failOf {A : Type} (r : result A) : option Err :=
  match r with Ok _ => None | Fail e => Some e end.

(** What the goroutines of the lines send, in decklist order. *)
Definition lineResults `{Regexp} (w : World) (nonEmptyLines : list string)
  : list (result Card) :=
  imap (fun pos line => (resolveLine w pos line).2) nonEmptyLines.

(** The same world with another order of completion of the image
    goroutines. *)
Definition withCompletionOrder (order : list nat) (w : World) : World :=
  {| semaphoreOrder := semaphoreOrder w;
     completionOrder := order;
     rangeOrder := rangeOrder w;
     clientGet := clientGet w;
     httpGet := httpGet w;
     imageDecode := imageDecode w;
     jpegEncode := jpegEncode w;
     ImageHolderByReader := ImageHolderByReader w;
     WriteTo := WriteTo w |}.

(** The bytes of a string. *)
Definition bytesOf (s : string) : list ascii := String.list_ascii_of_string s.

Definition charLF : ascii := Ascii.ascii_of_nat 10.
Definition charCR : ascii := Ascii.ascii_of_nat 13.

(** The statuses a reader can see during a run, in order. *)
Definition statusPath (ops : list JobOp) (j : GrimoireJob) : list string :=
  Status <$> observable ops j.

(** A store with one new job. *)
Definition oneJobStore : JobStore := <["job-1" := NewGrimoireJob "job-1" 0]> ∅.

(** An answer with the throttling status. *)
Definition throttled {B : Type} (r : HttpResult B) : bool :=
  match r with
  | TransportError => false
  | Response code _ => code =? StatusTooManyRequests
  end.

(** The time a list of events spends asleep. *)
Definition totalSleep (events : list Event) : Z := foldr Z.add 0 (sleeps events).

(** Every byte of a string satisfies [p]. *)
Definition allBytes (p : ascii -> bool) (s : string) : Prop :=
  Forall (fun c => p c = true) (bytesOf s).

(** The uris of a card's faces, front first. *)
Definition facesInOrder (card : Card) : list string :=
  if decide (Layout card = "transform" \/ Layout card = "modal_dfc")
  then [frontURI card; backURI card] else [frontURI card].

(** The uris of some cards in the order of the cards, the copies of a card
    one after the other, the front of a copy before its back. *)
Definition urisInOrder (cards : list Card) : list string :=
  flat_map (fun card => concat (replicate (Z.to_nat (Quantity card)) (facesInOrder card)))
           cards.

(* ===================================================================== *)
(** * Properties *)
(* ===================================================================== *)

(* --------------------------------------------------------------------- *)
(** ** Rate limiter *)
(* --------------------------------------------------------------------- *)


Lemma Sub_exact t u :
  minDuration <= t - u <= maxDuration -> Sub t u = t - u.
Proof.
  intros H. unfold Sub.
  destruct (Z.ltb_spec maxDuration (t - u)); [lia|].
  destruct (Z.ltb_spec (t - u) minDuration); lia.
Qed.

Lemma Sub_nonneg_le t u : u <= t -> 0 <= Sub t u <= t - u.
Proof.
  intros H. unfold Sub, maxDuration, minDuration.
  destruct (Z.ltb_spec (2 ^ 63 - 1) (t - u)); [lia|].
  destruct (Z.ltb_spec (t - u) (- 2 ^ 63)); lia.
Qed.

Lemma rateLimitWait_step g s :
  lastRequestTime s <= clock s ->
  let s1 := rateLimitWait g s in
  lastRequestTime s + 100 * Millisecond <= lastRequestTime s1
  /\ lastRequestTime s1 = clock s1
  /\ clock s <= clock s1.
Proof.
  intros H. cbn zeta. unfold rateLimitWait. cbn [lastRequestTime clock].
  set (now := clock s + Z.of_N (lagLock g)).
  assert (Hn : lastRequestTime s <= now) by (unfold now; lia).
  unfold Sub, maxDuration, minDuration, Millisecond, Nanosecond.
  destruct (Z.ltb_spec (2 ^ 63 - 1) (now - lastRequestTime s)).
  - replace (2 ^ 63 - 1 <? 100 * (1000000 * 1)) with false by reflexivity.
    unfold now in *. lia.
  - destruct (Z.ltb_spec (now - lastRequestTime s) (- 2 ^ 63)); [lia|].
    destruct (Z.ltb_spec (now - lastRequestTime s) (100 * (1000000 * 1)));
      unfold now in *; lia.
Qed.

Lemma rateLimitCalls_spaced gs : forall s ts s',
  lastRequestTime s <= clock s ->
  rateLimitCalls gs s = (ts, s') ->
  spacedFrom (lastRequestTime s) ts
  /\ length ts = length gs
  /\ lastRequestTime s' <= clock s'
  /\ clock s <= clock s'
  /\ (forall t, last ts = Some t -> t <= clock s').
Proof.
  induction gs as [|g gs IH]; intros s ts s' Hs Hrun.
  - injection Hrun as <- <-. cbn. repeat split; try lia. intros t Ht; discriminate.
  - pose proof (rateLimitWait_step g s Hs) as Hstep. cbn zeta in Hstep.
    cbn [rateLimitCalls] in Hrun. cbv zeta in Hrun.
    remember (rateLimitWait g s) as s1 eqn:Es1. clear Es1.
    destruct Hstep as (Hgap & Heq & Hmono).
    destruct (rateLimitCalls gs s1) as [ts1 s2] eqn:E.
    injection Hrun as <- <-.
    assert (Hs1 : lastRequestTime s1 <= clock s1) by lia.
    destruct (IH _ _ _ Hs1 E) as (Hsp & Hlen & Hinv & Hclk & Hlast).
    cbn [spacedFrom length]. repeat split; try assumption; try lia.
    intros t Ht. destruct ts1 as [|t1 ts1'].
    + injection Ht as <-. lia.
    + apply Hlast. rewrite last_cons_cons in Ht. exact Ht.
Qed.

Lemma spacedFrom_lookup ts : forall prev i t1 t2,
  spacedFrom prev ts -> ts !! i = Some t1 -> ts !! S i = Some t2 ->
  t1 + 100 * Millisecond <= t2.
Proof.
  induction ts as [|t ts IH]; intros prev i t1 t2 Hsp H1 H2; [discriminate|].
  destruct Hsp as [_ Hsp]. destruct i as [|i]; cbn in H1, H2.
  - inversion H1; subst. destruct ts; [discriminate|]. inversion H2; subst.
    apply Hsp.
  - eapply IH; eauto.
Qed.

Lemma spacedFrom_span ts : forall prev t,
  spacedFrom prev ts -> last ts = Some t ->
  prev + Z.of_nat (length ts) * (100 * Millisecond) <= t.
Proof.
  induction ts as [|t0 ts IH]; intros prev t Hsp Hl; [discriminate|].
  destruct Hsp as [Hgap Hsp]. destruct ts as [|t1 ts'].
  - cbn in Hl. inversion Hl; subst. cbn. lia.
  - rewrite last_cons_cons in Hl. specialize (IH t0 t Hsp Hl).
    cbn [length] in *. lia.
Qed.

(** C7: in every sequence of completed calls of [rateLimitWait] (the mutex
    puts the calls of all callers into one sequence), consecutive recorded
    call times are at least 100 ms apart; hence M calls record times that
    span at least (M-1) x 100 ms, and so does the clock from the start of
    the first call to the end of the last. *)
Theorem rateLimit_min_spacing (gs : list Lag) (s s' : Limiter) (ts : list Z) :
  lastRequestTime s <= clock s ->
  rateLimitCalls gs s = (ts, s') ->
  length ts = length gs
  /\ (forall i t1 t2, ts !! i = Some t1 -> ts !! S i = Some t2 ->
        t1 + 100 * Millisecond <= t2)
  /\ (forall first final, head ts = Some first -> last ts = Some final ->
        (Z.of_nat (length gs) - 1) * (100 * Millisecond) <= final - first)
  /\ (Z.of_nat (length gs) - 1) * (100 * Millisecond) <= clock s' - clock s.
Proof.
  intros Hs Hrun.
  destruct (rateLimitCalls_spaced gs s ts s' Hs Hrun) as (Hsp & Hlen & _ & Hclk & Hlast).
  split; [exact Hlen|]. split; [|split].
  - intros i t1 t2. eapply spacedFrom_lookup; eauto.
  - intros first final Hh Hl. destruct ts as [|t0 ts0]; [discriminate|].
    cbn in Hh. inversion Hh; subst t0. destruct Hsp as [_ Hsp].
    destruct ts0 as [|t1 ts1].
    + cbn in Hl. inversion Hl; subst. cbn in Hlen. lia.
    + rewrite last_cons_cons in Hl.
      pose proof (spacedFrom_span _ _ _ Hsp Hl) as Hspan.
      rewrite <- Hlen. cbn [length] in *. lia.
  - destruct gs as [|g gs0].
    + cbn in *. unfold Millisecond, Nanosecond. lia.
    + pose proof (rateLimitWait_step g s Hs) as Hstep. cbn zeta in Hstep.
      cbn [rateLimitCalls] in Hrun. cbv zeta in Hrun.
      remember (rateLimitWait g s) as s1 eqn:Es1. clear Es1.
      destruct Hstep as (Hgap & Heq & Hmono).
      destruct (rateLimitCalls gs0 s1) as [ts1 s2] eqn:E.
      injection Hrun as <- <-.
      assert (Hs1 : lastRequestTime s1 <= clock s1) by lia.
      destruct (rateLimitCalls_spaced gs0 _ _ _ Hs1 E) as (Hsp1 & Hlen1 & _ & Hclk1 & Hlast1).
      destruct ts1 as [|t1 ts1'].
      * destruct gs0; [|discriminate]. cbn in *. lia.
      * destruct (last (t1 :: ts1')) as [u|] eqn:El.
        -- pose proof (spacedFrom_span _ _ _ Hsp1 El) as Hspan.
           specialize (Hlast1 u eq_refl).
           cbn [length] in *. lia.
        -- exfalso. revert El. clear. revert t1.
           induction ts1' as [|a l IHl]; intros t1; [discriminate|].
           rewrite last_cons_cons. apply IHl.
Qed.

Lemma rateLimit_min_spacing_witness :
  let gs := [ {| lagLock := 0; lagSleep := 0; lagNow := 0 |};
              {| lagLock := 5; lagSleep := 2; lagNow := 1 |};
              {| lagLock := 250000000; lagSleep := 0; lagNow := 0 |} ] in
  let s := startLimiter 63900000000000000000 in
  let r := rateLimitCalls gs s in
  r.1 = [63900000000000000000; 63900000000100000003; 63900000000350000003]
  /\ (forall i t1 t2, r.1 !! i = Some t1 -> r.1 !! S i = Some t2 ->
        t1 + 100 * Millisecond <= t2).
Proof.
  intros gs s r. split; [vm_compute; reflexivity|].
  refine (proj1 (proj2 (rateLimit_min_spacing gs s r.2 r.1 _ _))).
  - unfold s, startLimiter. cbn [lastRequestTime clock]. lia.
  - unfold r. destruct (rateLimitCalls gs s); reflexivity.
Defined.

(* --------------------------------------------------------------------- *)
(** ** Job creation *)
(* --------------------------------------------------------------------- *)

Lemma Queue_full task q :
  released q = false -> (queueSize q <= length (pending q))%nat ->
  Queue task q = (q, Some ErrMaxCapacity).
Proof.
  intros Hr Hfull. unfold Queue. rewrite Hr.
  destruct (Nat.leb_spec (queueSize q) (length (pending q))); [reflexivity|lia].
Qed.

Lemma Queue_failure_keeps_queue task q q1 err :
  Queue task q = (q1, Some err) -> q1 = q.
Proof.
  unfold Queue. destruct (released q); [congruence|].
  destruct (queueSize q <=? length (pending q))%nat; congruence.
Qed.

(** C8: when the enqueue of a new job's task fails, [CreateJob] returns the
    error and no job, and the store is as before the call: the record
    stored provisionally is deleted and the id resolves to no job.  The id
    is fresh, as a new UUID is. *)
Theorem CreateJob_enqueue_failure_rolls_back
    (uuid : string) (now : Z) (decklist : string)
    (q q1 : TaskQueue) (jobs : JobStore) (err : Err) :
  jobs !! uuid = None ->
  Queue {| JobID := uuid; Decklist := decklist |} q = (q1, Some err) ->
  CreateJob uuid now decklist q jobs = (q, jobs, (None, Some err))
  /\ GetJob uuid (CreateJob uuid now decklist q jobs).1.2 = None.
Proof.
  intros Hfresh Hq.
  assert (Hc : CreateJob uuid now decklist q jobs = (q, jobs, (None, Some err))).
  { unfold CreateJob. cbn [ID NewGrimoireJob]. rewrite Hq.
    rewrite (Queue_failure_keeps_queue _ _ _ _ Hq).
    rewrite delete_insert_eq. rewrite delete_id by exact Hfresh. reflexivity. }
  split; [exact Hc|]. rewrite Hc. exact Hfresh.
Qed.


Lemma CreateJob_enqueue_failure_rolls_back_witness :
  CreateJob "id-1" 5 "1 Opt (xln) 65" fullQueue ∅
    = (fullQueue, ∅, (None, Some ErrMaxCapacity))
  /\ GetJob "id-1" (CreateJob "id-1" 5 "1 Opt (xln) 65" fullQueue ∅).1.2 = None.
Proof.
  apply (CreateJob_enqueue_failure_rolls_back "id-1" 5 "1 Opt (xln) 65"
           fullQueue fullQueue ∅ ErrMaxCapacity).
  - reflexivity.
  - reflexivity.
Defined.

(* --------------------------------------------------------------------- *)
(** ** Cleanup sweep *)
(* --------------------------------------------------------------------- *)

Lemma Since_gt_Hour now t :
  (1 * Hour <? Since now t) = true <-> 1 * Hour < now - t.
Proof.
  unfold Since, Sub, maxDuration, minDuration, Hour, Minute, Second, Millisecond, Nanosecond.
  destruct (Z.ltb_spec (2 ^ 63 - 1) (now - t)).
  - split; [lia|]. intros _. reflexivity.
  - destruct (Z.ltb_spec (now - t) (- 2 ^ 63)).
    + split; [discriminate|lia].
    + rewrite Z.ltb_lt. reflexivity.
Qed.

Lemma lookup_foldl_delete (ids : list string) : forall (m : JobStore) (id : string),
  foldl (fun m id => delete id m) m ids !! id
  = if decide (id ∈ ids) then None else m !! id.
Proof.
  induction ids as [|i ids IH]; intros m id; cbn [foldl].
  - rewrite decide_False by apply not_elem_of_nil. reflexivity.
  - rewrite IH. destruct (decide (id ∈ ids)) as [Hin|Hnin].
    + rewrite decide_True by (right; exact Hin). reflexivity.
    + destruct (decide (id = i)) as [->|Hne].
      * rewrite decide_True by left. apply lookup_delete_eq.
      * rewrite decide_False.
        -- apply lookup_delete_ne. congruence.
        -- intros Hc. apply elem_of_cons in Hc. tauto.
Qed.

Lemma toDelete_spec (P : string * GrimoireJob -> bool) (l : list (string * GrimoireJob)) :
  forall acc,
  foldl (fun acc kv => if P kv then acc ++ [kv.1] else acc) acc l
  = acc ++ (filter (fun kv => P kv = true) l).*1.
Proof.
  induction l as [|kv l IH]; intros acc; cbn [foldl].
  - rewrite filter_nil. cbn. rewrite app_nil_r. reflexivity.
  - rewrite IH. rewrite filter_cons. destruct (P kv) eqn:E.
    + rewrite decide_True by reflexivity. rewrite fmap_cons, <- app_assoc. reflexivity.
    + rewrite decide_False by discriminate. reflexivity.
Qed.

Lemma cleanupCycle_lookup (scanTime : string -> Z) (jobs : JobStore) (id : string) :
  cleanupCycle scanTime jobs !! id
  = match jobs !! id with
    | Some j => if 1 * Hour <? Since (scanTime id) (CreatedAt j) then None else Some j
    | None => None
    end.
Proof.
  unfold cleanupCycle.
  rewrite (toDelete_spec (fun kv => 1 * Hour <? Since (scanTime kv.1) (CreatedAt kv.2))).
  rewrite app_nil_l, lookup_foldl_delete.
  destruct (jobs !! id) as [j|] eqn:Ej.
  - destruct (1 * Hour <? Since (scanTime id) (CreatedAt j)) eqn:Ex.
    + rewrite decide_True; [reflexivity|].
      apply list_elem_of_fmap. exists (id, j). split; [reflexivity|].
      apply list_elem_of_filter. split; [exact Ex|].
      apply elem_of_map_to_list. exact Ej.
    + rewrite decide_False; [reflexivity|].
      intros Hin. apply list_elem_of_fmap in Hin as ([k j'] & -> & Hf).
      apply list_elem_of_filter in Hf as [HP Hm].
      apply elem_of_map_to_list in Hm. cbn in *. congruence.
  - destruct (decide _); reflexivity.
Qed.

(** C9: a sweep cycle removes a stored job exactly when, at the time the
    job is scanned, its [CreatedAt] lies more than one hour back, whatever
    its status; a job created 30 minutes before survives and is still found
    by its id, and one created more than an hour before is not found. *)
Theorem cleanupCycle_evicts_exactly_expired
    (scanTime : string -> Z) (jobs : JobStore) (id : string) (j : GrimoireJob) :
  jobs !! id = Some j ->
  (GetJob id (cleanupCycle scanTime jobs) = None
     <-> 1 * Hour < scanTime id - CreatedAt j)
  /\ (GetJob id (cleanupCycle scanTime jobs) = Some j
     <-> scanTime id - CreatedAt j <= 1 * Hour)
  /\ (scanTime id - CreatedAt j = 30 * Minute ->
      GetJob id (cleanupCycle scanTime jobs) = Some j).
Proof.
  intros Hj. unfold GetJob. rewrite cleanupCycle_lookup, Hj. clear Hj.
  pose proof (Since_gt_Hour (scanTime id) (CreatedAt j)) as Hs.
  destruct (1 * Hour <? Since (scanTime id) (CreatedAt j)) eqn:Ex.
  - assert (H : 1 * Hour < scanTime id - CreatedAt j) by (apply Hs; reflexivity).
    clear Hs Ex.
    split; [tauto|]. split; [split; [discriminate|intros; exfalso; lia]|].
    intros; exfalso. unfold Hour, Minute, Second, Millisecond, Nanosecond in *. lia.
  - assert (H : ~ 1 * Hour < scanTime id - CreatedAt j)
      by (intros Hc; apply Hs in Hc; discriminate).
    clear Hs Ex.
    split; [split; [discriminate|tauto]|]. split; [split; [lia|reflexivity]|].
    reflexivity.
Qed.


Lemma cleanupCycle_evicts_exactly_expired_witness :
  GetJob "old" (cleanupCycle (fun _ => 2 * Hour) sweepStore) = None
  /\ GetJob "young" (cleanupCycle (fun _ => 2 * Hour) sweepStore)
     = Some (NewGrimoireJob "young" (90 * Minute)).
Proof.
  split.
  - apply (proj1 (cleanupCycle_evicts_exactly_expired (fun _ => 2 * Hour) sweepStore
                    "old" (setStatus "complete" (NewGrimoireJob "old" 0)) eq_refl)).
    vm_compute. reflexivity.
  - apply (proj2 (proj2 (cleanupCycle_evicts_exactly_expired (fun _ => 2 * Hour) sweepStore
                    "young" (NewGrimoireJob "young" (90 * Minute)) eq_refl))).
    vm_compute. reflexivity.
Defined.

(* --------------------------------------------------------------------- *)
(** ** Orders chosen by the scheduler *)
(* --------------------------------------------------------------------- *)

Lemma shuffleFrom_Permutation {A : Type} (n : nat) : forall (picks : list nat) (l : list A),
  length l = n -> shuffleFrom n picks l ≡ₚ l.
Proof.
  induction n as [|n IH]; intros picks l Hlen.
  - destruct l; [reflexivity|discriminate].
  - destruct l as [|x l']; [discriminate|]. cbn [shuffleFrom].
    set (l := x :: l') in *.
    set (i := Nat.modulo (hd 0%nat picks) (length l)).
    assert (Hi : (i < length l)%nat).
    { unfold i. apply Nat.mod_upper_bound. rewrite Hlen. lia. }
    destruct (lookup_lt_is_Some_2 l i Hi) as [y Hy].
    rewrite (nth_lookup_Some l i x y Hy).
    rewrite <- (take_drop_middle l i y Hy) at 3.
    rewrite <- Permutation_middle. constructor.
    apply IH. rewrite length_app, length_take, length_drop. lia.
Qed.

Lemma shuffle_Permutation {A : Type} (picks : list nat) (l : list A) :
  shuffle picks l ≡ₚ l.
Proof. apply shuffleFrom_Permutation. reflexivity. Qed.

Lemma shuffle_length {A : Type} (picks : list nat) (l : list A) :
  length (shuffle picks l) = length l.
Proof. apply Permutation_length, shuffle_Permutation. Qed.

Lemma shuffle_no_picks {A : Type} (l : list A) : shuffle [] l = l.
Proof.
  unfold shuffle. induction l as [|x l IH]; [reflexivity|].
  cbn [length shuffleFrom hd tl]. rewrite Nat.Div0.mod_0_l.
  cbn [nth take drop app]. rewrite drop_0. f_equal. exact IH.
Qed.

(* --------------------------------------------------------------------- *)
(** ** Image retrieval into indexed slots *)
(* --------------------------------------------------------------------- *)

Lemma if_elem_snoc {A : Type} (i i0 : nat) (done : list nat) (a b : A) :
  (if decide (i ∈ done ++ [i0]) then a else b)
  = if decide (i = i0) then a else if decide (i ∈ done) then a else b.
Proof.
  destruct (decide (i = i0)) as [->|Hne].
  - apply decide_True. apply elem_of_app. right. apply list_elem_of_singleton. reflexivity.
  - destruct (decide (i ∈ done)) as [Hin|Hnin].
    + apply decide_True. apply elem_of_app. left. exact Hin.
    + apply decide_False. intros Hc. apply elem_of_app in Hc as [Hc|Hc]; [tauto|].
      apply list_elem_of_singleton in Hc. congruence.
Qed.

Section Slots.
Variable w : World.
Variable allURIs : list string.

(** After the goroutines in [done] have finished, exactly their slots
    are filled. *)
Lemma storeResult_slots (done : list nat) :
  let n := length allURIs in
  let slots := foldl (storeResult w allURIs) (replicate n [], replicate n None) done in
  length slots.1 = n /\ length slots.2 = n
  /\ forall i, (i < n)%nat ->
       slots.1 !! i = Some (if decide (i ∈ done) then bodyOf w allURIs i else [])
       /\ slots.2 !! i = Some (if decide (i ∈ done) then errOf w allURIs i else None).
Proof.
  intros n.
  induction done as [|i0 done IH] using rev_ind; cbn zeta.
  - cbn [foldl fst snd]. rewrite !length_replicate. repeat split; try reflexivity.
    + rewrite decide_False by apply not_elem_of_nil.
      apply lookup_replicate_2. exact H.
    + rewrite decide_False by apply not_elem_of_nil.
      apply lookup_replicate_2. exact H.
  - rewrite foldl_app. cbn [foldl]. cbn zeta in IH.
    destruct (foldl (storeResult w allURIs) (replicate n [], replicate n None) done)
      as [imageData errs] eqn:E.
    cbn [fst snd] in IH. destruct IH as (Hl1 & Hl2 & IH).
    unfold storeResult. cbn [fst snd].
    destruct (allURIs !! i0) as [uri|] eqn:Eu.
    + assert (Hi0 : (i0 < n)%nat) by (eapply lookup_lt_Some; exact Eu).
      destruct (fetched w i0 uri) as [body|err] eqn:Ef; cbn [fst snd].
      * rewrite length_insert. split; [assumption|]. split; [assumption|].
        intros i Hi. destruct (IH i Hi) as [H1 H2]. rewrite !if_elem_snoc.
        destruct (decide (i = i0)) as [->|Hne].
        -- rewrite list_lookup_insert_eq by lia. rewrite H2.
           unfold bodyOf, errOf. rewrite Eu, Ef.
           split; [reflexivity|]. destruct (decide (i0 ∈ done)); reflexivity.
        -- rewrite list_lookup_insert_ne by congruence. split; assumption.
      * rewrite length_insert. split; [assumption|]. split; [assumption|].
        intros i Hi. destruct (IH i Hi) as [H1 H2]. rewrite !if_elem_snoc.
        destruct (decide (i = i0)) as [->|Hne].
        -- rewrite list_lookup_insert_eq by lia. rewrite H1.
           unfold bodyOf, errOf. rewrite Eu, Ef.
           split; [|reflexivity]. destruct (decide (i0 ∈ done)); reflexivity.
        -- rewrite list_lookup_insert_ne by congruence. split; assumption.
    + split; [assumption|]. split; [assumption|].
      intros i Hi. destruct (IH i Hi) as [H1 H2]. rewrite !if_elem_snoc.
      destruct (decide (i = i0)) as [->|Hne]; [|split; assumption].
      apply lookup_lt_is_Some_2 in Hi as [u Hu]. congruence.
Qed.

(** Whatever the order of completion, slot [i] holds the result of
    index [i]. *)
Lemma fetchAll_slots (i : nat) :
  (i < length allURIs)%nat ->
  (fetchAll w allURIs).1 !! i = Some (bodyOf w allURIs i)
  /\ (fetchAll w allURIs).2 !! i = Some (errOf w allURIs i).
Proof.
  intros Hi. unfold fetchAll.
  destruct (storeResult_slots (shuffle (completionOrder w) (seq 0 (length allURIs))))
    as (_ & _ & H).
  destruct (H i Hi) as [H1 H2].
  assert (Hin : i ∈ shuffle (completionOrder w) (seq 0 (length allURIs))).
  { rewrite shuffle_Permutation. apply elem_of_seq. lia. }
  rewrite decide_True in H1 by exact Hin. rewrite decide_True in H2 by exact Hin.
  split; assumption.
Qed.
End Slots.

(* --------------------------------------------------------------------- *)
(** ** Page assembly *)
(* --------------------------------------------------------------------- *)

Lemma onCurrentPage_snoc (f : Page -> Page) (pdf : GoPdf) (p : Page) :
  onCurrentPage f (pdf ++ [p]) = pdf ++ [f p].
Proof.
  unfold onCurrentPage. rewrite length_app. cbn [length]. rewrite Nat.add_1_r.
  cbv iota beta. rewrite alter_app_r_alt by lia. rewrite Nat.sub_diag. reflexivity.
Qed.

Lemma addCardPage_app (w : World) (data : list Byte.byte) (pdf : GoPdf) :
  addCardPage w data pdf = pdf ++ [cardPage w data].
Proof.
  unfold addCardPage, cardPage, AddPage, Rectangle, ImageByHolder.
  rewrite onCurrentPage_snoc. cbn [artwork filled].
  destruct (convertTo8Bit w data) as [converted|e]; [|reflexivity].
  destruct (ImageHolderByReader w converted) as [holder|]; [|reflexivity].
  rewrite onCurrentPage_snoc. reflexivity.
Qed.

Lemma pageLoop_indices (w : World) (allURIs : list string)
    (imageData : list (list Byte.byte)) (errs : list (option Err)) (idxs : list nat) :
  (forall i, i ∈ idxs ->
     (i < length allURIs)%nat
     /\ imageData !! i = Some (bodyOf w allURIs i)
     /\ errs !! i = Some (errOf w allURIs i)) ->
  forall pdf,
  foldl (fun pdf i =>
           match errs !! i with
           | Some (Some _) => pdf
           | _ => addCardPage w (default [] (imageData !! i)) pdf
           end) pdf idxs
  = pdf ++ flat_map (pageOfIndex w allURIs) idxs.
Proof.
  induction idxs as [|i idxs IH]; intros Hslots pdf; cbn [foldl flat_map].
  - rewrite app_nil_r. reflexivity.
  - rewrite IH by (intros k Hk; apply Hslots; right; exact Hk).
    destruct (Hslots i ltac:(left)) as (Hi & H1 & H2). rewrite H1, H2.
    unfold errOf, bodyOf, pageOfIndex. cbn [default].
    destruct (lookup_lt_is_Some_2 allURIs i Hi) as [uri ->].
    destruct (fetched w i uri) as [body|e].
    + rewrite addCardPage_app, <- app_assoc. reflexivity.
    + reflexivity.
Qed.

(** [GeneratePDF] serializes the pages of the fetched indices, by
    increasing index, whatever the order in which the fetches finish. *)
Lemma GeneratePDF_pages (w : World) (cards : list Card) :
  GeneratePDF w cards = writePDF w (pagesInOrder w (allURIsOf w cards)).
Proof.
  unfold GeneratePDF, pagesInOrder.
  destruct (Nat.eqb_spec (length (allURIsOf w cards)) 0) as [H0|Hn].
  - rewrite H0. reflexivity.
  - destruct (fetchAll w (allURIsOf w cards)) as [imageData errs] eqn:E.
    unfold pageLoop. rewrite (pageLoop_indices w (allURIsOf w cards)).
    + reflexivity.
    + intros i Hi. apply elem_of_seq in Hi.
      assert (Hlt : (i < length (allURIsOf w cards))%nat) by lia.
      destruct (fetchAll_slots w (allURIsOf w cards) i Hlt) as [H1 H2].
      rewrite E in H1, H2. cbn [fst snd] in H1, H2. auto.
Qed.

Lemma pagesInOrder_length_indices (w : World) (allURIs : list string) (idxs : list nat) :
  length (flat_map (pageOfIndex w allURIs) idxs)
  = length (filter (fun i => fetchSucceeds w allURIs i = true) idxs).
Proof.
  induction idxs as [|i idxs IH]; [reflexivity|].
  cbn [flat_map]. rewrite length_app, IH, filter_cons.
  assert (Hs : fetchSucceeds w allURIs i = true /\ length (pageOfIndex w allURIs i) = 1%nat
               \/ fetchSucceeds w allURIs i = false /\ length (pageOfIndex w allURIs i) = 0%nat).
  { unfold pageOfIndex, fetchSucceeds. destruct (allURIs !! i) as [uri|]; [|right; auto].
    destruct (fetched w i uri); [left|right]; auto. }
  destruct Hs as [[Hs Hl]|[Hs Hl]]; rewrite Hl.
  - rewrite decide_True by exact Hs. reflexivity.
  - rewrite decide_False by congruence. reflexivity.
Qed.

Lemma pagesInOrder_length (w : World) (allURIs : list string) :
  length (pagesInOrder w allURIs)
  = length (filter (fun i => fetchSucceeds w allURIs i = true) (seq 0 (length allURIs))).
Proof. apply pagesInOrder_length_indices. Qed.

Lemma filter_split_length (P : nat -> bool) (l : list nat) :
  (length (filter (fun i => P i = true) l)
   + length (filter (fun i => P i = false) l) = length l)%nat.
Proof.
  induction l as [|i l IH]; [reflexivity|].
  rewrite !filter_cons. destruct (P i).
  - rewrite decide_True by reflexivity. rewrite decide_False by discriminate.
    cbn [length]. lia.
  - rewrite decide_False by discriminate. rewrite decide_True by reflexivity.
    cbn [length]. lia.
Qed.

Lemma pages_all_fetched (w : World) (allURIs : list string) (idxs : list nat) :
  (forall i uri, allURIs !! i = Some uri -> exists body, fetched w i uri = Ok body) ->
  (forall i, i ∈ idxs -> (i < length allURIs)%nat) ->
  length (flat_map (pageOfIndex w allURIs) idxs) = length idxs.
Proof.
  intros Hall. induction idxs as [|i idxs IH]; intros Hin; [reflexivity|].
  cbn [flat_map]. rewrite length_app, IH by (intros k Hk; apply Hin; right; exact Hk).
  destruct (lookup_lt_is_Some_2 allURIs i (Hin i ltac:(left))) as [uri Hu].
  destruct (Hall i uri Hu) as [body Hb].
  unfold pageOfIndex. rewrite Hu, Hb. reflexivity.
Qed.

Lemma pagesInOrder_all_fetched (w : World) (allURIs : list string) :
  (forall i uri, allURIs !! i = Some uri -> exists body, fetched w i uri = Ok body) ->
  length (pagesInOrder w allURIs) = length allURIs.
Proof.
  intros Hall. unfold pagesInOrder. rewrite pages_all_fetched.
  - apply length_seq.
  - exact Hall.
  - intros i Hi. apply elem_of_seq in Hi. lia.
Qed.

(* --------------------------------------------------------------------- *)
(** ** The uris of resolved cards *)
(* --------------------------------------------------------------------- *)

Lemma rangeMap_length (picks : list nat) (m : gmap string string) :
  length (rangeMap picks m) = size m.
Proof. unfold rangeMap. rewrite shuffle_length. apply length_map_to_list. Qed.

Lemma copies_length (w : World) (card : Card) (n : nat) : forall k,
  length (copies w card n k) = (n * size (ImageURIs card))%nat.
Proof.
  induction n as [|n IH]; intros k; [reflexivity|].
  cbn [copies]. rewrite length_app, length_map, rangeMap_length, IH. lia.
Qed.

Lemma collectURIs_length (w : World) (cards : list Card) : forall k,
  length (collectURIs w cards k)
  = foldr (fun card acc => (Z.to_nat (Quantity card) * size (ImageURIs card) + acc)%nat)
          0%nat cards.
Proof.
  induction cards as [|card rest IH]; intros k; [reflexivity|].
  cbn [collectURIs foldr]. rewrite length_app, copies_length, IH. reflexivity.
Qed.

Lemma withImageURIs_faces (card : Card) :
  Z.of_nat (size (ImageURIs (withImageURIs card))) = faceCount (Layout (withImageURIs card)).
Proof.
  unfold withImageURIs, faceCount. cbn [ImageURIs Layout].
  destruct (decide (Layout card = "transform" \/ Layout card = "modal_dfc")).
  - rewrite map_size_insert_None.
    + rewrite map_size_insert_None by apply lookup_empty. rewrite map_size_empty. reflexivity.
    + rewrite lookup_insert_ne by discriminate. apply lookup_empty.
  - rewrite map_size_insert_None by apply lookup_empty. rewrite map_size_empty. reflexivity.
Qed.

Lemma ParseCard_Ok `{Regexp} get line events card :
  ParseCard get line = (events, Ok card) ->
  exists card0, card = withImageURIs card0.
Proof.
  unfold ParseCard. destruct (decide (TrimSpace line = "")); [discriminate|].
  destruct (match FindStringSubmatch strictPattern (TrimSpace line) with
            | Some matches => Some matches
            | None =>
                match FindStringSubmatch fallbackPattern (TrimSpace line) with
                | Some matches => Some (<[4%nat := TrimSpace (group 4 matches)]> matches)
                | None => None
                end
            end) as [matches|]; [|discriminate].
  destruct (Atoi (group 1 matches)) as [quantity|]; [|discriminate].
  destruct (lookupLoop _ _ _ _) as [ev [card0|e]]; [|discriminate].
  intros Heq. injection Heq as _ <-. exists card0. reflexivity.
Qed.

Lemma resolved_faces `{Regexp} (card : Card) :
  resolved card -> Z.of_nat (size (ImageURIs card)) = faceCount (Layout card).
Proof.
  intros (get & line & events & Hp).
  destruct (ParseCard_Ok _ _ _ _ Hp) as [card0 ->]. apply withImageURIs_faces.
Qed.

Lemma allURIsOf_resolved `{Regexp} (w : World) (cards : list Card) :
  Forall resolved cards ->
  Forall (fun card => 0 <= Quantity card) cards ->
  Z.of_nat (length (allURIsOf w cards)) = expectedPages cards.
Proof.
  intros Hres Hq. unfold allURIsOf. rewrite length_fmap, collectURIs_length.
  induction cards as [|card rest IH]; [reflexivity|].
  inversion Hres as [|? ? Hr Hres']; subst. inversion Hq as [|? ? Hq0 Hq']; subst.
  cbn [foldr expectedPages]. rewrite Nat2Z.inj_add, Nat2Z.inj_mul, IH by assumption.
  rewrite (resolved_faces card Hr), Z2Nat.id by exact Hq0. reflexivity.
Qed.

(* --------------------------------------------------------------------- *)
(** ** Runs of the handler *)
(* --------------------------------------------------------------------- *)

Lemma length_eqb_0 {A : Type} (l : list A) : l <> [] -> (length l =? 0)%nat = false.
Proof. destruct l; [congruence|reflexivity]. Qed.

(** A run in which every line resolves and the document is written. *)
Lemma processJob_resolved `{Regexp} (w : World) (decklist : string) (cards : list Card) :
  nonEmptyLinesOf decklist <> [] ->
  collect (resultsChan w (nonEmptyLinesOf decklist)) = (cards, []) ->
  WriteTo w (pagesInOrder w (allURIsOf w cards)) = true ->
  processJob w decklist
  = ([OpSetStatus "parse"; OpSetStatus "fetch"; OpSetStatus "generate";
      OpSetPDF (pagesInOrder w (allURIsOf w cards)); OpSetStatus "complete"], None).
Proof.
  intros Hne Hc Hw. unfold processJob. rewrite length_eqb_0 by exact Hne.
  rewrite Hc. cbn [length Nat.ltb Nat.leb]. rewrite GeneratePDF_pages.
  unfold writePDF. rewrite Hw. reflexivity.
Qed.

Lemma processJob_blank `{Regexp} (w : World) (decklist : string) :
  nonEmptyLinesOf decklist = [] ->
  processJob w decklist = ([OpSetStatus "parse"; OpSetStatus "complete"], None).
Proof. intros Hb. unfold processJob. rewrite Hb. reflexivity. Qed.

Lemma single_copies_length (w : World) (cards : list Card) :
  (forall card, card ∈ cards -> Quantity card = 1 /\ size (ImageURIs card) = 1%nat) ->
  length (allURIsOf w cards) = length cards.
Proof.
  intros Hone. unfold allURIsOf. rewrite length_fmap, collectURIs_length.
  induction cards as [|card rest IH]; [reflexivity|].
  cbn [foldr length]. destruct (Hone card ltac:(left)) as [-> ->].
  rewrite IH by (intros c Hc; apply Hone; right; exact Hc). reflexivity.
Qed.

(* --------------------------------------------------------------------- *)
(** ** Page order *)
(* --------------------------------------------------------------------- *)

(** C1: the order of the pages follows the order in which the resolution
    goroutines obtain the semaphore, and the order in which [range] yields
    the faces, not the order of the decklist alone.  In [secondFirstWorld]
    the decklist "1 Opt (xln) 65", "2 Shock (m19) 156" is answered by a
    document whose pages of line 2 precede the page of line 1; in
    [backFirstWorld] the back of a transform card precedes its front.  In
    [calmWorld] the same decklist gives the pages in decklist order. *)
Theorem page_order_follows_scheduling :
  option_map pageURIs (PDF (jobAfter (H := backtracking) secondFirstWorld twoLines))
  = Some ["https://api.scryfall.com/cards/m19/156?format=image&version=png";
          "https://api.scryfall.com/cards/m19/156?format=image&version=png";
          "https://api.scryfall.com/cards/xln/65?format=image&version=png"]
  /\ option_map pageURIs (PDF (jobAfter (H := backtracking) backFirstWorld oneLine))
  = Some ["https://api.scryfall.com/cards/xln/65?format=image&version=png&face=back";
          "https://api.scryfall.com/cards/xln/65?format=image&version=png"]
  /\ option_map pageURIs (PDF (jobAfter (H := backtracking) calmWorld twoLines))
  = Some ["https://api.scryfall.com/cards/xln/65?format=image&version=png";
          "https://api.scryfall.com/cards/m19/156?format=image&version=png";
          "https://api.scryfall.com/cards/m19/156?format=image&version=png"].
Proof. repeat split; vm_compute; reflexivity. Qed.

(* --------------------------------------------------------------------- *)
(** ** A decklist without cards *)
(* --------------------------------------------------------------------- *)

(** C4: a decklist of blank lines only (accepted by the submit handler, as
    it is not the empty string) brings the job to "complete" without any
    document: [PDF] stays unset and the result query answers "PDF not
    available". *)
Theorem blank_decklist_completes_without_document (w : World) :
  nonEmptyLinesOf blankLines = []
  /\ (handleSubmit "job-1" 0 blankLines InitQueue ∅).2 = SubmitQueued "job-1"
  /\ let jobs := (handleSubmit "job-1" 0 blankLines InitQueue ∅).1.2 in
     let run := ProcessDecklistHandler (H := backtracking) w
                  {| JobID := "job-1"; Decklist := blankLines |} jobs in
     run.2 = None
     /\ GetStatus <$> GetJob "job-1" run.1 = Some ("complete", None)
     /\ GetPDF <$> GetJob "job-1" run.1 = Some None
     /\ handleGetJobPDF "job-1" run.1 = PDFNotAvailable.
Proof.
  assert (Hb : nonEmptyLinesOf blankLines = []) by (vm_compute; reflexivity).
  split; [exact Hb|]. split; [vm_compute; reflexivity|].
  cbn zeta. unfold ProcessDecklistHandler.
  rewrite (processJob_blank w blankLines Hb).
  repeat split; vm_compute; reflexivity.
Qed.

(* --------------------------------------------------------------------- *)
(** ** Images that cannot be fetched *)
(* --------------------------------------------------------------------- *)

(** C5: when every line resolves, the job ends in "complete" with no error
    whichever image fetches fail (given that the document serializes); its
    document holds exactly the pages of the indices whose fetch succeeded,
    by increasing index, so pages and failed indices add up to the number
    of uris; with three single-faced cards of quantity 1 and one failing
    uri the document has two pages. *)
Theorem failed_image_leaves_job_complete `{Regexp}
    (w : World) (decklist : string) (cards : list Card) (j0 : GrimoireJob) :
  nonEmptyLinesOf decklist <> [] ->
  collect (resultsChan w (nonEmptyLinesOf decklist)) = (cards, []) ->
  WriteTo w (pagesInOrder w (allURIsOf w cards)) = true ->
  let allURIs := allURIsOf w cards in
  let failed :=
    filter (fun i => fetchSucceeds w allURIs i = false) (seq 0 (length allURIs)) in
  let j := applyOps (processJob w decklist).1 j0 in
  (processJob w decklist).2 = None
  /\ Status j = "complete"
  /\ Error j = Error j0
  /\ PDF j = Some (pagesInOrder w allURIs)
  /\ (length (pagesInOrder w allURIs) + length failed = length allURIs)%nat
  /\ ((forall card, card ∈ cards -> Quantity card = 1 /\ size (ImageURIs card) = 1%nat) ->
      length cards = 3%nat -> length failed = 1%nat ->
      length (pagesInOrder w allURIs) = 2%nat).
Proof.
  intros Hne Hc Hw. cbn zeta.
  rewrite (processJob_resolved w decklist cards Hne Hc Hw).
  assert (Hsum : (length (pagesInOrder w (allURIsOf w cards))
                  + length (filter (fun i => fetchSucceeds w (allURIsOf w cards) i = false)
                              (seq 0 (length (allURIsOf w cards))))
                  = length (allURIsOf w cards))%nat).
  { rewrite pagesInOrder_length.
    rewrite (filter_split_length (fetchSucceeds w (allURIsOf w cards))).
    apply length_seq. }
  repeat split; try reflexivity; try exact Hsum.
  intros Hone H3 H1. pose proof (single_copies_length w cards Hone) as Hl. lia.
Qed.

Lemma failed_image_leaves_job_complete_witness :
  Status (jobAfter (H := backtracking) oneImageDownWorld threeLines) = "complete"
  /\ Error (jobAfter (H := backtracking) oneImageDownWorld threeLines) = None
  /\ exists doc,
       PDF (jobAfter (H := backtracking) oneImageDownWorld threeLines) = Some doc
       /\ length doc = 2%nat.
Proof.
  pose proof (failed_image_leaves_job_complete (H := backtracking)
                oneImageDownWorld threeLines
                (cardsOf (H := backtracking) oneImageDownWorld threeLines)
                (NewGrimoireJob "job-1" 0)) as Hthm.
  cbn zeta in Hthm.
  destruct Hthm as (_ & Hst & Herr & Hpdf & _ & Hlen).
  - vm_compute. discriminate.
  - vm_compute. reflexivity.
  - reflexivity.
  - split; [exact Hst|]. split; [exact Herr|].
    eexists. split; [exact Hpdf|]. apply Hlen.
    + intros card Hc. revert card Hc. apply Forall_forall.
      repeat constructor; vm_compute; reflexivity.
    + vm_compute. reflexivity.
    + vm_compute. reflexivity.
Defined.

(* --------------------------------------------------------------------- *)
(** ** Page count *)
(* --------------------------------------------------------------------- *)

(** C6: for resolved cards whose image fetches all succeed, the generated
    document has as many pages as the sum over the cards of quantity times
    face count, the face count being 2 for the layouts "transform" and
    "modal_dfc" and 1 otherwise. *)
Theorem GeneratePDF_page_count `{Regexp} (w : World) (cards : list Card) :
  Forall resolved cards ->
  Forall (fun card => 0 <= Quantity card) cards ->
  (forall i uri, allURIsOf w cards !! i = Some uri -> exists body, fetched w i uri = Ok body) ->
  WriteTo w (pagesInOrder w (allURIsOf w cards)) = true ->
  exists doc,
    GeneratePDF w cards = Ok doc
    /\ Z.of_nat (length doc) = expectedPages cards.
Proof.
  intros Hres Hq Hall Hw. exists (pagesInOrder w (allURIsOf w cards)).
  rewrite GeneratePDF_pages. unfold writePDF. rewrite Hw. split; [reflexivity|].
  rewrite (pagesInOrder_all_fetched w _ Hall). apply allURIsOf_resolved; assumption.
Qed.

Lemma sampleWorld_fetched sem rng layoutAt decodable (i : nat) (uri : string) :
  fetched (sampleWorld sem rng layoutAt (fun _ => false) decodable) i uri
  = Ok (String.list_byte_of_string uri).
Proof. reflexivity. Qed.

Lemma GeneratePDF_page_count_witness :
  exists doc,
    GeneratePDF transformWorld (cardsOf (H := backtracking) transformWorld twoLines) = Ok doc
    /\ Z.of_nat (length doc) = 5.
Proof.
  destruct (GeneratePDF_page_count (H := backtracking) transformWorld
              (cardsOf (H := backtracking) transformWorld twoLines)) as (doc & Hdoc & Hlen).
  - repeat constructor.
    + exists (clientGet transformWorld 0 0), "1 Opt (xln) 65",
        (ParseCard (H := backtracking) (clientGet transformWorld 0 0) "1 Opt (xln) 65").1.
      vm_compute. reflexivity.
    + exists (clientGet transformWorld 1 0), "2 Shock (m19) 156",
        (ParseCard (H := backtracking) (clientGet transformWorld 1 0) "2 Shock (m19) 156").1.
      vm_compute. reflexivity.
  - repeat constructor; vm_compute; discriminate.
  - intros i uri _. eexists. apply sampleWorld_fetched.
  - reflexivity.
  - exists doc. split; [exact Hdoc|]. rewrite Hlen. vm_compute. reflexivity.
Defined.

(* --------------------------------------------------------------------- *)
(** ** Images that cannot be decoded *)
(* --------------------------------------------------------------------- *)

(** C10 as stated fails: a fetched image that does not decode still gets
    its page, so the document has more pages than pieces of artwork. *)
Lemma undecodable_image_page_counterexample :
  ~ (forall (w : World) (cards : list Card) (doc : Buffer),
       GeneratePDF w cards = Ok doc ->
       length doc
       = length (filter (fun i => artworkPlaced w (allURIsOf w cards) i = true)
                        (seq 0 (length (allURIsOf w cards))))).
Proof.
  intros Hclaim.
  specialize (Hclaim undecodableWorld
                (cardsOf (H := backtracking) undecodableWorld oneLine)
                [{| filled := true; artwork := None |}]).
  assert (Hgen : GeneratePDF undecodableWorld
                   (cardsOf (H := backtracking) undecodableWorld oneLine)
                 = Ok [{| filled := true; artwork := None |}])
    by (vm_compute; reflexivity).
  specialize (Hclaim Hgen). clear Hgen. vm_compute in Hclaim. discriminate Hclaim.
Qed.

(** C10 (amended): assembly never stops at an image.  Every index whose
    fetch succeeded gets its page, in order; when the bytes do not decode,
    do not encode or are refused by the image holder, the page stays in the
    document with its background and without artwork.  [GeneratePDF] fails
    exactly when the final document does not serialize, and a job whose
    lines all resolve ends in "complete" when it does. *)
Theorem undecodable_image_keeps_blank_page `{Regexp} (w : World) :
  (forall cards, GeneratePDF w cards = writePDF w (pagesInOrder w (allURIsOf w cards)))
  /\ (forall data,
        (forall converted, convertTo8Bit w data = Ok converted ->
                           ImageHolderByReader w converted = None) ->
        cardPage w data = {| filled := true; artwork := None |})
  /\ (forall cards,
        (exists e, GeneratePDF w cards = Fail e)
        <-> WriteTo w (pagesInOrder w (allURIsOf w cards)) = false)
  /\ (forall decklist cards j0,
        nonEmptyLinesOf decklist <> [] ->
        collect (resultsChan w (nonEmptyLinesOf decklist)) = (cards, []) ->
        WriteTo w (pagesInOrder w (allURIsOf w cards)) = true ->
        Status (applyOps (processJob w decklist).1 j0) = "complete"
        /\ PDF (applyOps (processJob w decklist).1 j0)
           = Some (pagesInOrder w (allURIsOf w cards))).
Proof.
  split; [apply GeneratePDF_pages|]. split; [|split].
  - intros data Hbad. unfold cardPage.
    destruct (convertTo8Bit w data) as [converted|e]; [|reflexivity].
    rewrite (Hbad converted eq_refl). reflexivity.
  - intros cards. rewrite GeneratePDF_pages. unfold writePDF.
    destruct (WriteTo w (pagesInOrder w (allURIsOf w cards))); split.
    + intros [e He]. discriminate.
    + discriminate.
    + reflexivity.
    + intros _. exists ErrWrite. reflexivity.
  - intros decklist cards j0 Hne Hc Hw.
    rewrite (processJob_resolved w decklist cards Hne Hc Hw). split; reflexivity.
Qed.

Lemma undecodable_image_keeps_blank_page_witness :
  Status (jobAfter (H := backtracking) undecodableWorld oneLine) = "complete"
  /\ PDF (jobAfter (H := backtracking) undecodableWorld oneLine)
     = Some [{| filled := true; artwork := None |}].
Proof.
  destruct (undecodable_image_keeps_blank_page (H := backtracking) undecodableWorld)
    as (_ & Hblank & _ & Hjob).
  destruct (Hjob oneLine (cardsOf (H := backtracking) undecodableWorld oneLine)
              (NewGrimoireJob "job-1" 0)) as [Hst Hpdf].
  - vm_compute. discriminate.
  - vm_compute. reflexivity.
  - reflexivity.
  - split; [exact Hst|]. unfold jobAfter. rewrite Hpdf.
    change (pagesInOrder undecodableWorld
              (allURIsOf undecodableWorld (cardsOf (H := backtracking) undecodableWorld oneLine)))
      with [cardPage undecodableWorld
              (String.list_byte_of_string
                 "https://api.scryfall.com/cards/xln/65?format=image&version=png")].
    rewrite Hblank; [reflexivity|].
    intros converted Hconv. vm_compute in Hconv. discriminate Hconv.
Defined.

(* --------------------------------------------------------------------- *)
(** ** Job life cycle *)
(* --------------------------------------------------------------------- *)

(** C2 as stated fails: between [setPDF] and [setStatus("complete")] a
    reader sees a job whose document is set and whose status is
    "generate". *)
Lemma job_invariant_counterexample :
  ~ (forall (w : World) (decklist : string) (j : GrimoireJob),
       j ∈ observable (processJob (H := backtracking) w decklist).1 (NewGrimoireJob "job-1" 0) ->
       (is_Some (PDF j) <-> Status j = "complete")).
Proof.
  intros Hclaim.
  set (j := setPDF [cardPage calmWorld
                      (String.list_byte_of_string
                         "https://api.scryfall.com/cards/xln/65?format=image&version=png")]
              (setStatus "generate" (NewGrimoireJob "job-1" 0))).
  specialize (Hclaim calmWorld oneLine j).
  assert (Hin : j ∈ observable (processJob (H := backtracking) calmWorld oneLine).1
                    (NewGrimoireJob "job-1" 0)).
  { vm_compute. do 4 right. left. }
  destruct (Hclaim Hin) as [Hc _].
  assert (Hs : Status j = "complete") by (apply Hc; eexists; reflexivity).
  discriminate Hs.
Qed.

Ltac each_state :=
  repeat match goal with
         | H : _ ∈ _ :: _ |- _ => apply elem_of_cons in H as [->|H]
         | H : _ ∈ [] |- _ => apply elem_of_nil in H; contradiction
         end.

(** The runs of the handler: the setters it can call, in order. *)
Lemma processJob_runs `{Regexp} (w : World) (decklist : string) :
  (nonEmptyLinesOf decklist = []
   /\ (processJob w decklist).1 = [OpSetStatus "parse"; OpSetStatus "complete"])
  \/ (nonEmptyLinesOf decklist <> []
      /\ ((exists err, (processJob w decklist).1 = [OpSetStatus "parse"; OpSetError err])
          \/ (exists err, (processJob w decklist).1
                = [OpSetStatus "parse"; OpSetStatus "fetch"; OpSetStatus "generate";
                   OpSetError err])
          \/ (exists pdf, (processJob w decklist).1
                = [OpSetStatus "parse"; OpSetStatus "fetch"; OpSetStatus "generate";
                   OpSetPDF pdf; OpSetStatus "complete"]))).
Proof.
  unfold processJob. destruct (nonEmptyLinesOf decklist) as [|l ls] eqn:El.
  - left. split; reflexivity.
  - right. split; [discriminate|]. cbn [length Nat.eqb].
    destruct (collect (resultsChan w (l :: ls))) as [cards errors].
    destruct (0 <? length errors)%nat.
    + left. eexists. reflexivity.
    + right. destruct (GeneratePDF w cards) as [pdf|err].
      * right. eexists. reflexivity.
      * left. eexists. reflexivity.
Qed.

(** C2 (amended): in every state a reader can observe during a run of the
    handler on a new job, the error is set exactly when the status is
    "error"; a set document implies the status "generate" or "complete"
    (the document is stored before the status is changed); a job completed
    for a decklist with a non-blank line has its document; no run visits
    both "complete" and "error"; and a state with a terminal status is the
    last state of the run. *)
Theorem job_states_of_a_run `{Regexp} (w : World) (decklist : string) (j0 : GrimoireJob) :
  fresh j0 ->
  let states := observable (processJob w decklist).1 j0 in
  (forall j, j ∈ states -> (is_Some (Error j) <-> Status j = "error"))
  /\ (forall j, j ∈ states -> is_Some (PDF j) ->
        Status j = "generate" \/ Status j = "complete")
  /\ (forall j, j ∈ states -> Status j = "complete" ->
        nonEmptyLinesOf decklist <> [] -> is_Some (PDF j))
  /\ ~ (exists j1 j2, j1 ∈ states /\ j2 ∈ states
                      /\ Status j1 = "complete" /\ Status j2 = "error")
  /\ (forall i j, states !! i = Some j -> terminal j -> S i = length states).
Proof.
  intros (Hst & Hpdf & Herr). cbn zeta.
  destruct j0 as [id st pdf0 err0 created]. cbn in Hst, Hpdf, Herr. subst st pdf0 err0.
  unfold terminal.
  destruct (processJob_runs w decklist)
    as [[Hb ->]|[Hne [[e ->]|[[e ->]|[pdf ->]]]]];
    cbn [observable applyOp setStatus setError setPDF ID Status PDF Error CreatedAt].
  - repeat split.
    + intros [? ?]; each_state; discriminate.
    + intros ?; each_state; discriminate.
    + intros j Hj [? Hp]. each_state; discriminate.
    + intros j Hj _ Hn. congruence.
    + intros (j1 & j2 & H1 & H2 & Hc & He). each_state; discriminate.
    + intros i j Hi [Ht|Ht];
        do 3 (destruct i as [|i]; [injection Hi as <-; try discriminate; try reflexivity|]);
        discriminate.
  - repeat split.
    + intros [? ?]; each_state; try discriminate. reflexivity.
    + intros Hs; each_state; try discriminate. eexists; reflexivity.
    + intros j Hj [? Hp]. each_state; discriminate.
    + intros j Hj Hc _. each_state; discriminate.
    + intros (j1 & j2 & H1 & H2 & Hc & He). each_state; discriminate.
    + intros i j Hi [Ht|Ht];
        do 3 (destruct i as [|i]; [injection Hi as <-; try discriminate; try reflexivity|]);
        discriminate.
  - repeat split.
    + intros [? ?]; each_state; try discriminate. reflexivity.
    + intros Hs; each_state; try discriminate. eexists; reflexivity.
    + intros j Hj [? Hp]. each_state; discriminate.
    + intros j Hj Hc _. each_state; discriminate.
    + intros (j1 & j2 & H1 & H2 & Hc & He). each_state; discriminate.
    + intros i j Hi [Ht|Ht];
        do 5 (destruct i as [|i]; [injection Hi as <-; try discriminate; try reflexivity|]);
        discriminate.
  - repeat split.
    + intros [? ?]; each_state; discriminate.
    + intros Hs; each_state; discriminate.
    + intros j Hj [? Hp]. each_state; try discriminate; auto.
    + intros j Hj Hc _. each_state; try discriminate. eexists; reflexivity.
    + intros (j1 & j2 & H1 & H2 & Hc & He). each_state; discriminate.
    + intros i j Hi [Ht|Ht];
        do 6 (destruct i as [|i]; [injection Hi as <-; try discriminate; try reflexivity|]);
        discriminate.
Qed.

Lemma job_states_of_a_run_witness :
  let states := observable (processJob (H := backtracking) calmWorld oneLine).1
                  (NewGrimoireJob "job-1" 0) in
  fresh (NewGrimoireJob "job-1" 0)
  /\ length states = 6%nat
  /\ (forall j, j ∈ states -> (is_Some (Error j) <-> Status j = "error"))
  /\ (forall j, j ∈ states -> is_Some (PDF j) ->
        Status j = "generate" \/ Status j = "complete").
Proof.
  cbn zeta.
  assert (Hfresh : fresh (NewGrimoireJob "job-1" 0)) by (repeat split; reflexivity).
  split; [exact Hfresh|]. split; [vm_compute; reflexivity|].
  pose proof (job_states_of_a_run (H := backtracking) calmWorld oneLine
                (NewGrimoireJob "job-1" 0) Hfresh) as Hthm.
  cbn zeta in Hthm. destruct Hthm as (He & Hp & _). split; assumption.
Defined.

(* --------------------------------------------------------------------- *)
(** ** Retries of the catalog lookup *)
(* --------------------------------------------------------------------- *)

Lemma countGets_app (a b : list Event) :
  countGets (a ++ b) = (countGets a + countGets b)%nat.
Proof.
  induction a as [|e a IH]; [reflexivity|].
  destruct e; cbn [app countGets]; rewrite IH; reflexivity.
Qed.

Lemma lookupLoop_gets get card (fuel : nat) : forall attempt,
  (countGets (lookupLoop get card fuel attempt).1 <= fuel)%nat.
Proof.
  induction fuel as [|fuel IH]; intros attempt; [reflexivity|].
  cbn [lookupLoop]. specialize (IH (S attempt)).
  destruct (lookupLoop get card fuel (S attempt)) as [events r].
  cbn [fst] in IH.
  destruct (get attempt (cardURL card)) as [|code body].
  - destruct (Z.of_nat attempt =? maxRetries - 1); cbn [fst countGets app]; lia.
  - destruct (code =? StatusTooManyRequests).
    + destruct (Z.of_nat attempt =? maxRetries - 1); cbn [fst countGets app]; lia.
    + destruct (negb (code =? StatusOK)); [cbn [fst countGets]; lia|].
      destruct body; cbn [fst countGets]; lia.
Qed.

Lemma ParseCard_gets `{Regexp} get line :
  (countGets (ParseCard get line).1 <= 3)%nat.
Proof.
  unfold ParseCard. destruct (decide (TrimSpace line = "")); [cbn; lia|].
  destruct (match FindStringSubmatch strictPattern (TrimSpace line) with
            | Some matches => Some matches
            | None =>
                match FindStringSubmatch fallbackPattern (TrimSpace line) with
                | Some matches => Some (<[4%nat := TrimSpace (group 4 matches)]> matches)
                | None => None
                end
            end) as [matches|]; [|cbn; lia].
  destruct (Atoi (group 1 matches)) as [quantity|]; [|cbn; lia].
  match goal with
  | |- context [lookupLoop ?g ?c ?f ?a] =>
      pose proof (lookupLoop_gets g c f a) as Hb;
      destruct (lookupLoop g c f a) as [events [card|e]]
  end; exact Hb.
Qed.

Lemma parseAttempts_gets `{Regexp} w pos line (fuel : nat) : forall attempt cur,
  (countGets (parseAttempts w pos line fuel attempt cur).1 <= 3 * fuel)%nat.
Proof.
  induction fuel as [|fuel IH]; intros attempt cur; [cbn; lia|].
  cbn [parseAttempts].
  pose proof (ParseCard_gets (clientGet w pos attempt) line) as Hp.
  destruct (ParseCard (clientGet w pos attempt) line) as [events [card|err]].
  - cbn [fst] in *. lia.
  - specialize (IH (S attempt) (Fail err)).
    destruct (parseAttempts w pos line fuel (S attempt) (Fail err)) as [events' r].
    cbn [fst] in *. rewrite !countGets_app.
    assert (Hz : countGets (if Z.of_nat attempt <? 2
                            then [EvSleep (dmul Second (Z.of_nat attempt + 1))]
                            else []) = 0%nat)
      by (destruct (Z.of_nat attempt <? 2); reflexivity).
    rewrite Hz. lia.
Qed.

Lemma resolveLine_gets `{Regexp} w pos line :
  (countGets (resolveLine w pos line).1 <= 9)%nat.
Proof.
  unfold resolveLine.
  pose proof (parseAttempts_gets w pos line 3 0 (Ok emptyCard)) as Hb.
  destruct (parseAttempts w pos line 3 0 (Ok emptyCard)) as [events [card|err]];
    cbn [fst] in *; lia.
Qed.

(** C3 as stated fails: with the catalog out of reach, one decklist entry
    causes nine HTTP attempts, three in each of the three calls of
    [ParseCard] the handler makes for it. *)
Lemma lookup_attempts_counterexample :
  ~ (forall (w : World) (pos : nat) (line : string),
       (countGets (resolveLine (H := backtracking) w pos line).1 <= 3)%nat).
Proof.
  intros Hclaim. specialize (Hclaim offlineWorld 0%nat oneLine).
  vm_compute in Hclaim. lia.
Qed.

Lemma lookupLoop_step get card (fuel attempt : nat) :
  lookupLoop get card (S fuel) attempt
  = let call := [EvRateLimitWait; EvGet (cardURL card)] in
    let continue (delay : Z) :=
      (call ++ [EvSleep delay] ++ (lookupLoop get card fuel (S attempt)).1,
       (lookupLoop get card fuel (S attempt)).2) in
    match get attempt (cardURL card) with
    | TransportError =>
        if Z.of_nat attempt =? maxRetries - 1
        then (call, Fail (ErrHTTPRequestFailed maxRetries))
        else continue (dmul baseDelay (shl1 (Z.of_nat attempt)))
    | Response code body =>
        if code =? StatusTooManyRequests then
          if Z.of_nat attempt =? maxRetries - 1
          then (call, Fail (ErrAPIRateLimited maxRetries))
          else continue (dmul (5 * Second) (shl1 (Z.of_nat attempt)))
        else if negb (code =? StatusOK) then (call, Fail (ErrAPIStatus code))
        else match body with
             | None => (call, Fail ErrJSONDecode)
             | Some j => (call, Ok (Decode j card))
             end
    end.
Proof.
  cbn [lookupLoop]. destruct (lookupLoop get card fuel (S attempt)). reflexivity.
Qed.

Lemma lookupFrom_transport_error get card (attempt : nat) :
  (attempt < 2)%nat ->
  get attempt (cardURL card) = TransportError ->
  lookupFrom get card attempt
  = ([EvRateLimitWait; EvGet (cardURL card);
      EvSleep (100 * Millisecond * 2 ^ Z.of_nat attempt)]
       ++ (lookupFrom get card (S attempt)).1,
     (lookupFrom get card (S attempt)).2).
Proof.
  intros Hlt Hget. unfold lookupFrom.
  destruct attempt as [|[|attempt]]; [| |lia].
  - change (Z.to_nat maxRetries - 0)%nat with 3%nat.
    change (Z.to_nat maxRetries - 1)%nat with 2%nat.
    rewrite (lookupLoop_step get card 2 0). cbv zeta. rewrite Hget. reflexivity.
  - change (Z.to_nat maxRetries - 1)%nat with 2%nat.
    change (Z.to_nat maxRetries - 2)%nat with 1%nat.
    rewrite (lookupLoop_step get card 1 1). cbv zeta. rewrite Hget. reflexivity.
Qed.

Lemma lookupFrom_throttled get card (attempt : nat) body :
  (attempt < 2)%nat ->
  get attempt (cardURL card) = Response StatusTooManyRequests body ->
  lookupFrom get card attempt
  = ([EvRateLimitWait; EvGet (cardURL card);
      EvSleep (5 * Second * 2 ^ Z.of_nat attempt)]
       ++ (lookupFrom get card (S attempt)).1,
     (lookupFrom get card (S attempt)).2).
Proof.
  intros Hlt Hget. unfold lookupFrom.
  destruct attempt as [|[|attempt]]; [| |lia].
  - change (Z.to_nat maxRetries - 0)%nat with 3%nat.
    change (Z.to_nat maxRetries - 1)%nat with 2%nat.
    rewrite (lookupLoop_step get card 2 0). cbv zeta. rewrite Hget. reflexivity.
  - change (Z.to_nat maxRetries - 1)%nat with 2%nat.
    change (Z.to_nat maxRetries - 2)%nat with 1%nat.
    rewrite (lookupLoop_step get card 1 1). cbv zeta. rewrite Hget. reflexivity.
Qed.

Lemma lookupFrom_other_status get card (attempt : nat) code body :
  (attempt < 3)%nat ->
  get attempt (cardURL card) = Response code body ->
  code <> StatusTooManyRequests -> code <> StatusOK ->
  lookupFrom get card attempt
  = ([EvRateLimitWait; EvGet (cardURL card)], Fail (ErrAPIStatus code)).
Proof.
  intros Hlt Hget H429 H200. unfold lookupFrom.
  assert (Hf : exists fuel, (Z.to_nat maxRetries - attempt)%nat = S fuel).
  { exists (2 - attempt)%nat. change (Z.to_nat maxRetries) with 3%nat. lia. }
  destruct Hf as [fuel ->]. cbn [lookupLoop]. rewrite Hget.
  destruct (Z.eqb_spec code StatusTooManyRequests); [contradiction|].
  destruct (Z.eqb_spec code StatusOK); [contradiction|]. reflexivity.
Qed.

Lemma lookupFrom_last_transport_error get card :
  get 2%nat (cardURL card) = TransportError ->
  lookupFrom get card 2
  = ([EvRateLimitWait; EvGet (cardURL card)], Fail (ErrHTTPRequestFailed 3)).
Proof.
  intros Hget. unfold lookupFrom.
  change (Z.to_nat maxRetries - 2)%nat with 1%nat. cbn [lookupLoop]. rewrite Hget.
  reflexivity.
Qed.

Lemma lookupFrom_last_throttled get card body :
  get 2%nat (cardURL card) = Response StatusTooManyRequests body ->
  lookupFrom get card 2
  = ([EvRateLimitWait; EvGet (cardURL card)], Fail (ErrAPIRateLimited 3)).
Proof.
  intros Hget. unfold lookupFrom.
  change (Z.to_nat maxRetries - 2)%nat with 1%nat. cbn [lookupLoop]. rewrite Hget.
  reflexivity.
Qed.

Lemma parseAttempts_step `{Regexp} w pos line (fuel attempt : nat) cur :
  parseAttempts w pos line (S fuel) attempt cur
  = match ParseCard (clientGet w pos attempt) line with
    | (events, Ok card) => (events, Ok card)
    | (events, Fail err) =>
        (events
           ++ (if Z.of_nat attempt <? 2
               then [EvSleep (dmul Second (Z.of_nat attempt + 1))] else [])
           ++ (parseAttempts w pos line fuel (S attempt) (Fail err)).1,
         (parseAttempts w pos line fuel (S attempt) (Fail err)).2)
    end.
Proof.
  cbn [parseAttempts].
  destruct (ParseCard (clientGet w pos attempt) line) as [events [card|err]];
    [reflexivity|].
  destruct (parseAttempts w pos line fuel (S attempt) (Fail err)). reflexivity.
Qed.

Lemma parseAttempts_retry `{Regexp} w pos line (attempt : nat) cur events err :
  (attempt < 2)%nat ->
  ParseCard (clientGet w pos attempt) line = (events, Fail err) ->
  parseAttempts w pos line (3 - attempt) attempt cur
  = (events ++ [EvSleep ((Z.of_nat attempt + 1) * Second)]
       ++ (parseAttempts w pos line (3 - S attempt) (S attempt) (Fail err)).1,
     (parseAttempts w pos line (3 - S attempt) (S attempt) (Fail err)).2).
Proof.
  intros Hlt Hp.
  destruct attempt as [|[|attempt]]; [| |lia].
  - change (3 - 0)%nat with 3%nat. change (3 - 1)%nat with 2%nat.
    rewrite (parseAttempts_step w pos line 2 0). rewrite Hp. reflexivity.
  - change (3 - 1)%nat with 2%nat. change (3 - 2)%nat with 1%nat.
    rewrite (parseAttempts_step w pos line 1 1). rewrite Hp. reflexivity.
Qed.

(** C3 (amended): one call of [ParseCard] makes at most 3 HTTP attempts.
    In it, a transport error at attempt 0 or 1 is followed by a sleep of
    100 ms x 2^attempt and the next attempt; a throttling status at attempt
    0 or 1 by a sleep of 5 s x 2^attempt and the next attempt; any other
    status that is not 200 ends the call at once, without a retry; a
    transport error at the last attempt ends it in "HTTP request failed",
    a throttling status in "API rate limited", two different failures.
    The handler calls [ParseCard] up to three times for an entry, sleeping
    1 s and 2 s after a failed call, so an entry causes at most 9 HTTP
    attempts. *)
Theorem lookup_retry_policy `{Regexp} :
  (forall get line, (countGets (ParseCard get line).1 <= 3)%nat)
  /\ (forall w pos line, (countGets (resolveLine w pos line).1 <= 9)%nat)
  /\ (forall get card (attempt : nat),
        (attempt < 2)%nat ->
        get attempt (cardURL card) = TransportError ->
        lookupFrom get card attempt
        = ([EvRateLimitWait; EvGet (cardURL card);
            EvSleep (100 * Millisecond * 2 ^ Z.of_nat attempt)]
             ++ (lookupFrom get card (S attempt)).1,
           (lookupFrom get card (S attempt)).2))
  /\ (forall get card (attempt : nat) body,
        (attempt < 2)%nat ->
        get attempt (cardURL card) = Response StatusTooManyRequests body ->
        lookupFrom get card attempt
        = ([EvRateLimitWait; EvGet (cardURL card);
            EvSleep (5 * Second * 2 ^ Z.of_nat attempt)]
             ++ (lookupFrom get card (S attempt)).1,
           (lookupFrom get card (S attempt)).2))
  /\ (forall get card (attempt : nat) code body,
        (attempt < 3)%nat ->
        get attempt (cardURL card) = Response code body ->
        code <> StatusTooManyRequests -> code <> StatusOK ->
        lookupFrom get card attempt
        = ([EvRateLimitWait; EvGet (cardURL card)], Fail (ErrAPIStatus code)))
  /\ (forall get card,
        get 2%nat (cardURL card) = TransportError ->
        lookupFrom get card 2
        = ([EvRateLimitWait; EvGet (cardURL card)], Fail (ErrHTTPRequestFailed 3)))
  /\ (forall get card body,
        get 2%nat (cardURL card) = Response StatusTooManyRequests body ->
        lookupFrom get card 2
        = ([EvRateLimitWait; EvGet (cardURL card)], Fail (ErrAPIRateLimited 3)))
  /\ ErrHTTPRequestFailed 3 <> ErrAPIRateLimited 3
  /\ (forall w pos line (attempt : nat) cur events err,
        (attempt < 2)%nat ->
        ParseCard (clientGet w pos attempt) line = (events, Fail err) ->
        parseAttempts w pos line (3 - attempt) attempt cur
        = (events ++ [EvSleep ((Z.of_nat attempt + 1) * Second)]
             ++ (parseAttempts w pos line (3 - S attempt) (S attempt) (Fail err)).1,
           (parseAttempts w pos line (3 - S attempt) (S attempt) (Fail err)).2)).
Proof.
  split; [apply ParseCard_gets|].
  split; [apply resolveLine_gets|].
  split; [apply lookupFrom_transport_error|].
  split; [apply lookupFrom_throttled|].
  split; [apply lookupFrom_other_status|].
  split; [apply lookupFrom_last_transport_error|].
  split; [apply lookupFrom_last_throttled|].
  split; [discriminate|].
  apply parseAttempts_retry.
Qed.

Lemma lookup_retry_policy_witness :
  (lookupFrom flakyGet optCard 0).2
  = Ok {| Quantity := 1; Name := "Opt"; CardSet := "xln"; CollectorNumber := "65";
          Layout := "normal"; ImageURIs := ∅ |}
  /\ sleeps (lookupFrom flakyGet optCard 0).1 = [100 * Millisecond; 10 * Second]
  /\ countGets (lookupFrom flakyGet optCard 0).1 = 3%nat.
Proof.
  destruct (lookup_retry_policy (H := backtracking)) as (_ & _ & Hte & Hth & _).
  rewrite (Hte flakyGet optCard 0%nat ltac:(lia) eq_refl).
  cbn [fst snd].
  rewrite (Hth flakyGet optCard 1%nat None ltac:(lia) eq_refl).
  cbn [fst snd]. repeat split; vm_compute; reflexivity.
Defined.

(* ===================================================================== *)
(** * Further properties of the code *)
(* ===================================================================== *)

(* --------------------------------------------------------------------- *)
(** ** Rate limiter: how long a call waits *)
(* --------------------------------------------------------------------- *)

(** X1: a call of [rateLimitWait] records the later of the time it read
    and 100 ms after the previous record, plus what the scheduler adds: it
    sleeps only when the previous record is less than 100 ms back, and
    then for the remainder only. *)
Theorem rateLimitWait_records_max (g : Lag) (s : Limiter) :
  lastRequestTime s <= clock s ->
  let now := clock s + Z.of_N (lagLock g) in
  lastRequestTime (rateLimitWait g s)
  = Z.max now (lastRequestTime s + 100 * Millisecond)
    + (if now <? lastRequestTime s + 100 * Millisecond then Z.of_N (lagSleep g) else 0)
    + Z.of_N (lagNow g).
Proof.
  intros H. cbn zeta. unfold rateLimitWait. cbn [lastRequestTime clock].
  set (now := clock s + Z.of_N (lagLock g)).
  assert (Hn : lastRequestTime s <= now) by (unfold now; lia).
  unfold Sub, maxDuration, minDuration, Millisecond, Nanosecond.
  destruct (Z.ltb_spec (2 ^ 63 - 1) (now - lastRequestTime s)).
  - replace (2 ^ 63 - 1 <? 100 * (1000000 * 1)) with false by reflexivity.
    destruct (Z.ltb_spec now (lastRequestTime s + 100 * (1000000 * 1))); lia.
  - destruct (Z.ltb_spec (now - lastRequestTime s) (- 2 ^ 63)); [lia|].
    destruct (Z.ltb_spec (now - lastRequestTime s) (100 * (1000000 * 1)));
      destruct (Z.ltb_spec now (lastRequestTime s + 100 * (1000000 * 1))); lia.
Qed.

Lemma rateLimitWait_records_max_witness :
  lastRequestTime
    (rateLimitWait {| lagLock := 30000000; lagSleep := 0; lagNow := 0 |}
                   {| clock := 500000000; lastRequestTime := 500000000 |})
  = 600000000
  /\ lastRequestTime
       (rateLimitWait {| lagLock := 250000000; lagSleep := 7; lagNow := 0 |}
                      {| clock := 500000000; lastRequestTime := 500000000 |})
     = 750000000.
Proof.
  split.
  - rewrite (rateLimitWait_records_max
               {| lagLock := 30000000; lagSleep := 0; lagNow := 0 |}
               {| clock := 500000000; lastRequestTime := 500000000 |});
      [reflexivity|cbn; lia].
  - rewrite (rateLimitWait_records_max
               {| lagLock := 250000000; lagSleep := 7; lagNow := 0 |}
               {| clock := 500000000; lastRequestTime := 500000000 |});
      [reflexivity|cbn; lia].
Defined.

(* --------------------------------------------------------------------- *)
(** ** Job store *)
(* --------------------------------------------------------------------- *)

(** X2: when the queue accepts the task, [CreateJob] returns the new job,
    which is then found under its id with status "queued" and neither
    document nor error; every other id resolves as before; and the queue
    ends with the task carrying the id and the decklist. *)
Theorem CreateJob_stores_queued_job
    (uuid : string) (now : Z) (decklist : string) (q : TaskQueue) (jobs : JobStore) :
  released q = false ->
  (length (pending q) < queueSize q)%nat ->
  let r := CreateJob uuid now decklist q jobs in
  r.2 = (Some (NewGrimoireJob uuid now), None)
  /\ GetJob uuid r.1.2 = Some (NewGrimoireJob uuid now)
  /\ (forall id, id <> uuid -> GetJob id r.1.2 = GetJob id jobs)
  /\ pending r.1.1 = pending q ++ [{| JobID := uuid; Decklist := decklist |}]
  /\ handleGetJob uuid r.1.2 = JobInfo uuid "queued" None
  /\ handleGetJobPDF uuid r.1.2 = PDFNotComplete "queued".
Proof.
  intros Hrel Hroom. cbn zeta. unfold CreateJob, Queue. cbn [ID NewGrimoireJob].
  rewrite Hrel.
  destruct (Nat.leb_spec (queueSize q) (length (pending q))) as [Hfull|_]; [lia|].
  cbn [fst snd pending]. unfold handleGetJob, handleGetJobPDF, GetJob.
  rewrite lookup_insert_eq. repeat split.
  intros id Hne. apply lookup_insert_ne. congruence.
Qed.

Lemma CreateJob_stores_queued_job_witness :
  GetJob "job-2" (CreateJob "job-2" 7 oneLine InitQueue oneJobStore).1.2
  = Some (NewGrimoireJob "job-2" 7)
  /\ GetJob "job-1" (CreateJob "job-2" 7 oneLine InitQueue oneJobStore).1.2
     = Some (NewGrimoireJob "job-1" 0).
Proof.
  destruct (CreateJob_stores_queued_job "job-2" 7 oneLine InitQueue oneJobStore)
    as (_ & Hget & Hother & _).
  - reflexivity.
  - cbn. lia.
  - split; [exact Hget|]. rewrite Hother by discriminate. reflexivity.
Defined.

(** X3: a sweep cycle only removes: the store after it is the store
    before it restricted to the jobs whose age at scan time is at most one
    hour; it is part of the store before, and a second cycle at the same
    scan times removes nothing more. *)
Theorem cleanupCycle_is_filter (scanTime : string -> Z) (jobs : JobStore) :
  cleanupCycle scanTime jobs
  = filter (fun kv => Since (scanTime kv.1) (CreatedAt kv.2) <= 1 * Hour) jobs
  /\ cleanupCycle scanTime jobs ⊆ jobs
  /\ cleanupCycle scanTime (cleanupCycle scanTime jobs) = cleanupCycle scanTime jobs.
Proof.
  assert (Heq : forall m : JobStore,
             cleanupCycle scanTime m
             = filter (fun kv => Since (scanTime kv.1) (CreatedAt kv.2) <= 1 * Hour) m).
  { intros m. apply map_eq. intros id. rewrite cleanupCycle_lookup.
    destruct (m !! id) as [j|] eqn:Ej.
    - destruct (Z.ltb_spec (1 * Hour) (Since (scanTime id) (CreatedAt j))) as [Hlt|Hge].
      + symmetry. apply map_lookup_filter_None. right. intros x Hx. cbn.
        replace x with j by congruence. lia.
      + symmetry. apply map_lookup_filter_Some. split; [exact Ej|]. cbn. lia.
    - symmetry. apply map_lookup_filter_None. left. exact Ej. }
  split; [apply Heq|]. split.
  - rewrite Heq. apply map_filter_subseteq.
  - rewrite !Heq. apply map_eq. intros id.
    rewrite !map_lookup_filter.
    destruct (jobs !! id) as [j|]; [|reflexivity]. cbn.
    destruct (decide (Since (scanTime id) (CreatedAt j) <= 1 * Hour)) as [Hd|Hd].
    + rewrite !option_guard_True by exact Hd. cbn.
      rewrite option_guard_True by exact Hd. reflexivity.
    + rewrite !option_guard_False by exact Hd. reflexivity.
Qed.

(* --------------------------------------------------------------------- *)
(** ** The handler and the store *)
(* --------------------------------------------------------------------- *)

Lemma applyOps_keeps_identity (ops : list JobOp) : forall j,
  ID (applyOps ops j) = ID j /\ CreatedAt (applyOps ops j) = CreatedAt j.
Proof.
  unfold applyOps. induction ops as [|op ops IH]; intros j; [split; reflexivity|].
  cbn [foldl]. destruct (IH (applyOp op j)) as [-> ->].
  destruct op; split; reflexivity.
Qed.

(** X4: a task whose job is not in the store (for instance swept before a
    worker took the task) makes the handler return "job not found" and
    leaves the store as it is; a task whose job is stored changes that job
    only, and neither its id nor its creation time. *)
Theorem ProcessDecklistHandler_touches_one_job `{Regexp}
    (w : World) (dt : DecklistTask) (jobs : JobStore) :
  (jobs !! JobID dt = None ->
   ProcessDecklistHandler w dt jobs = (jobs, Some (ErrJobNotFound (JobID dt))))
  /\ (forall id, id <> JobID dt ->
        GetJob id (ProcessDecklistHandler w dt jobs).1 = GetJob id jobs)
  /\ (forall j0, jobs !! JobID dt = Some j0 ->
        exists j, GetJob (JobID dt) (ProcessDecklistHandler w dt jobs).1 = Some j
                  /\ j = applyOps (processJob w (Decklist dt)).1 j0
                  /\ ID j = ID j0 /\ CreatedAt j = CreatedAt j0).
Proof.
  unfold ProcessDecklistHandler, GetJob. split; [|split].
  - intros ->. reflexivity.
  - intros id Hne. destruct (jobs !! JobID dt) as [j0|]; [|reflexivity].
    destruct (processJob w (Decklist dt)) as [ops err]. cbn [fst].
    apply lookup_insert_ne. congruence.
  - intros j0 ->. destruct (processJob w (Decklist dt)) as [ops err]. cbn [fst].
    exists (applyOps ops j0). rewrite lookup_insert_eq.
    destruct (applyOps_keeps_identity ops j0) as [Hid Hc]. auto.
Qed.

Lemma ProcessDecklistHandler_touches_one_job_witness :
  ProcessDecklistHandler (H := backtracking) calmWorld
    {| JobID := "job-9"; Decklist := oneLine |} oneJobStore
  = (oneJobStore, Some (ErrJobNotFound "job-9"))
  /\ GetJob "job-1"
       (ProcessDecklistHandler (H := backtracking) calmWorld
          {| JobID := "job-2"; Decklist := oneLine |}
          (<["job-2" := NewGrimoireJob "job-2" 5]> oneJobStore)).1
     = Some (NewGrimoireJob "job-1" 0).
Proof.
  split.
  - apply (proj1 (ProcessDecklistHandler_touches_one_job (H := backtracking) calmWorld
                    {| JobID := "job-9"; Decklist := oneLine |} oneJobStore)).
    reflexivity.
  - rewrite (proj1 (proj2 (ProcessDecklistHandler_touches_one_job (H := backtracking)
                             calmWorld {| JobID := "job-2"; Decklist := oneLine |}
                             (<["job-2" := NewGrimoireJob "job-2" 5]> oneJobStore)))
               "job-1") by discriminate.
    reflexivity.
Defined.

Lemma processJob_outcomes `{Regexp} (w : World) (decklist : string) :
  (nonEmptyLinesOf decklist = []
   /\ processJob w decklist = ([OpSetStatus "parse"; OpSetStatus "complete"], None))
  \/ (nonEmptyLinesOf decklist <> []
      /\ ((exists errors,
             processJob w decklist
             = ([OpSetStatus "parse";
                 OpSetError (ErrEncountered (Z.of_nat (length errors)) errors)],
                Some (ErrEncountered (Z.of_nat (length errors)) errors)))
          \/ (exists err,
                processJob w decklist
                = ([OpSetStatus "parse"; OpSetStatus "fetch"; OpSetStatus "generate";
                    OpSetError (ErrPDFGeneration err)], Some err))
          \/ (exists pdf,
                processJob w decklist
                = ([OpSetStatus "parse"; OpSetStatus "fetch"; OpSetStatus "generate";
                    OpSetPDF pdf; OpSetStatus "complete"], None)))).
Proof.
  unfold processJob. destruct (nonEmptyLinesOf decklist) as [|l ls] eqn:El.
  - left. split; reflexivity.
  - right. split; [discriminate|]. cbn [length Nat.eqb].
    destruct (collect (resultsChan w (l :: ls))) as [cards errors].
    destruct (0 <? length errors)%nat.
    + left. eexists. reflexivity.
    + right. destruct (GeneratePDF w cards) as [pdf|err].
      * right. eexists. reflexivity.
      * left. eexists. reflexivity.
Qed.

(** X5: the statuses a reader can see during a run on a new job form one
    of four paths: queued, parse, complete (no card line); queued, parse,
    error (a line did not resolve); queued, parse, fetch, generate, error
    (the document did not serialize); queued, parse, fetch, generate,
    generate, complete.  The run always ends in a terminal status, and the
    handler returns an error exactly when that status is "error", which is
    exactly when the job's error is set. *)
Theorem handler_run_paths `{Regexp} (w : World) (decklist : string) (j0 : GrimoireJob) :
  fresh j0 ->
  let run := processJob w decklist in
  let j := applyOps run.1 j0 in
  (statusPath run.1 j0 = ["queued"; "parse"; "complete"]
   \/ statusPath run.1 j0 = ["queued"; "parse"; "error"]
   \/ statusPath run.1 j0 = ["queued"; "parse"; "fetch"; "generate"; "error"]
   \/ statusPath run.1 j0
      = ["queued"; "parse"; "fetch"; "generate"; "generate"; "complete"])
  /\ terminal j
  /\ (run.2 = None <-> Status j = "complete")
  /\ (is_Some run.2 <-> Status j = "error")
  /\ (is_Some run.2 <-> is_Some (Error j)).
Proof.
  intros (Hst & Hpdf & Herr). cbn zeta.
  destruct j0 as [id st pdf0 err0 created]. cbn in Hst, Hpdf, Herr. subst st pdf0 err0.
  unfold terminal, statusPath.
  destruct (processJob_outcomes w decklist)
    as [[_ ->]|[_ [[errors ->]|[[err ->]|[pdf ->]]]]]; cbn.
  - split; [auto|]. split; [auto|]. split; [tauto|].
    split; split; intros Hx;
      first [discriminate Hx | destruct Hx as [? Hx]; discriminate Hx].
  - split; [auto|]. split; [auto|]. split; [split; discriminate|].
    split; split; intros _; try reflexivity; eexists; reflexivity.
  - split; [auto|]. split; [auto|]. split; [split; discriminate|].
    split; split; intros _; try reflexivity; eexists; reflexivity.
  - split; [auto 6|]. split; [auto|]. split; [tauto|].
    split; split; intros Hx;
      first [discriminate Hx | destruct Hx as [? Hx]; discriminate Hx].
Qed.

Lemma handler_run_paths_witness :
  statusPath (processJob (H := backtracking) offlineWorld oneLine).1
             (NewGrimoireJob "job-1" 0)
  = ["queued"; "parse"; "error"]
  /\ terminal (jobAfter (H := backtracking) offlineWorld oneLine).
Proof.
  destruct (handler_run_paths (H := backtracking) offlineWorld oneLine
              (NewGrimoireJob "job-1" 0)) as (_ & Hterm & _).
  - repeat split; reflexivity.
  - split; [vm_compute; reflexivity|exact Hterm].
Defined.

(** X6: once the handler has run on a new job, the result query for that
    job never answers "not found" or "not complete": it answers with the
    job's failure exactly when the handler returned an error, with "PDF not
    available" when the decklist had no card line, and otherwise with the
    document the job holds. *)
Theorem result_query_after_run `{Regexp}
    (w : World) (dt : DecklistTask) (jobs : JobStore) (j0 : GrimoireJob) :
  jobs !! JobID dt = Some j0 ->
  fresh j0 ->
  let run := ProcessDecklistHandler w dt jobs in
  match run.2 with
  | Some _ => exists e, handleGetJobPDF (JobID dt) run.1 = PDFJobFailed e
  | None =>
      (nonEmptyLinesOf (Decklist dt) = []
       /\ handleGetJobPDF (JobID dt) run.1 = PDFNotAvailable)
      \/ (nonEmptyLinesOf (Decklist dt) <> []
          /\ exists doc, handleGetJobPDF (JobID dt) run.1 = PDFSend doc
                         /\ (PDF <$> GetJob (JobID dt) run.1) = Some (Some doc))
  end.
Proof.
  intros Hj (Hst & Hpdf & Herr). cbn zeta.
  unfold ProcessDecklistHandler, handleGetJobPDF, GetJob. rewrite Hj.
  destruct j0 as [id st pdf0 err0 created]. cbn in Hst, Hpdf, Herr. subst st pdf0 err0.
  destruct (processJob_outcomes w (Decklist dt))
    as [[Hb ->]|[Hne [[errors ->]|[[err ->]|[pdf ->]]]]];
    cbn [fst snd]; rewrite lookup_insert_eq; cbn.
  - left. split; [exact Hb|reflexivity].
  - eexists. reflexivity.
  - eexists. reflexivity.
  - right. split; [exact Hne|]. exists pdf. split; reflexivity.
Qed.

Lemma result_query_after_run_witness :
  exists doc,
    handleGetJobPDF "job-1"
      (ProcessDecklistHandler (H := backtracking) calmWorld
         {| JobID := "job-1"; Decklist := oneLine |} oneJobStore).1
    = PDFSend doc.
Proof.
  pose proof (result_query_after_run (H := backtracking) calmWorld
                {| JobID := "job-1"; Decklist := oneLine |} oneJobStore
                (NewGrimoireJob "job-1" 0) eq_refl
                (conj eq_refl (conj eq_refl eq_refl))) as Hq.
  cbn zeta in Hq.
  assert (Hnone : (ProcessDecklistHandler (H := backtracking) calmWorld
                     {| JobID := "job-1"; Decklist := oneLine |} oneJobStore).2 = None)
    by (vm_compute; reflexivity).
  rewrite Hnone in Hq. destruct Hq as [[Hb _]|[_ (doc & Hdoc & _)]].
  - exfalso. vm_compute in Hb. discriminate Hb.
  - exists doc. exact Hdoc.
Defined.

(* --------------------------------------------------------------------- *)
(** ** Resolution of the lines *)
(* --------------------------------------------------------------------- *)

Lemma collect_from (results : list (result Card)) : forall cards errors,
  foldl (fun '(cards, errors) res =>
           match res with
           | Fail err => (cards, errors ++ [err])
           | Ok card => (cards ++ [card], errors)
           end)
        (cards, errors) results
  = (cards ++ omap okOf results, errors ++ omap failOf results).
Proof.
  induction results as [|res results IH]; intros cards errors; cbn.
  - rewrite !app_nil_r. reflexivity.
  - destruct res as [card|err]; rewrite IH; cbn;
      rewrite <- ?app_assoc; reflexivity.
Qed.

Lemma collect_spec (results : list (result Card)) :
  collect results = (omap okOf results, omap failOf results).
Proof. unfold collect. rewrite collect_from. reflexivity. Qed.

Lemma omap_ok_fail_length {A : Type} (results : list (result A)) :
  (length (omap okOf results) + length (omap failOf results) = length results)%nat.
Proof.
  induction results as [|[a|e] results IH]; cbn in *; lia.
Qed.

Lemma map_pairs_fmap {A B C : Type} (g : A -> B -> C) (l : list (A * B)) :
  map (fun '(a, b) => g a b) l = (fun ab => g ab.1 ab.2) <$> l.
Proof.
  induction l as [|[a b] l IH]; [reflexivity|]. cbn. rewrite IH. reflexivity.
Qed.

Lemma resultsChan_Permutation `{Regexp} (w : World) (nonEmptyLines : list string) :
  resultsChan w nonEmptyLines ≡ₚ lineResults w nonEmptyLines.
Proof.
  unfold resultsChan, lineResults.
  rewrite (map_pairs_fmap (fun pos line => (resolveLine w pos line).2)).
  rewrite shuffle_Permutation, fmap_imap. reflexivity.
Qed.

(** X7: no line is lost or resolved twice, whatever the scheduling: the
    cards the handler collects are a permutation of the cards of the lines
    that resolve, the errors a permutation of the errors of the lines that
    do not, and together they are as many as the non-blank lines; every
    line is resolved even when another one has failed.  When the
    goroutines obtain the semaphore in the order of the lines, cards and
    errors are in decklist order. *)
Theorem resolution_keeps_every_line `{Regexp} (w : World) (nonEmptyLines : list string) :
  let collected := collect (resultsChan w nonEmptyLines) in
  collected.1 ≡ₚ omap okOf (lineResults w nonEmptyLines)
  /\ collected.2 ≡ₚ omap failOf (lineResults w nonEmptyLines)
  /\ (length collected.1 + length collected.2 = length nonEmptyLines)%nat
  /\ (semaphoreOrder w = [] ->
      collected = (omap okOf (lineResults w nonEmptyLines),
                   omap failOf (lineResults w nonEmptyLines))).
Proof.
  cbn zeta. rewrite collect_spec. cbn [fst snd].
  split; [rewrite resultsChan_Permutation; reflexivity|].
  split; [rewrite resultsChan_Permutation; reflexivity|]. split.
  - rewrite omap_ok_fail_length.
    rewrite (Permutation_length (resultsChan_Permutation w nonEmptyLines)).
    unfold lineResults. apply length_imap.
  - intros Hsem. unfold resultsChan. rewrite Hsem, shuffle_no_picks.
    rewrite (map_pairs_fmap (fun pos line => (resolveLine w pos line).2)).
    rewrite fmap_imap. reflexivity.
Qed.

Lemma resolution_keeps_every_line_witness :
  (collect (resultsChan (H := backtracking) calmWorld (nonEmptyLinesOf threeLines))).1
  = omap okOf (lineResults (H := backtracking) calmWorld (nonEmptyLinesOf threeLines))
  /\ length (cardsOf (H := backtracking) calmWorld threeLines) = 3%nat.
Proof.
  destruct (resolution_keeps_every_line (H := backtracking) calmWorld
              (nonEmptyLinesOf threeLines)) as (_ & _ & _ & Hord).
  cbn zeta in Hord. rewrite (Hord eq_refl). split; [reflexivity|].
  vm_compute. reflexivity.
Defined.

(** The result of a goroutine, by the results of the three calls of
    [ParseCard] it can make. *)
Lemma resolveLine_result `{Regexp} (w : World) (pos : nat) (line : string) :
  (resolveLine w pos line).2
  = match (ParseCard (clientGet w pos 0) line).2 with
    | Ok card => Ok card
    | Fail _ =>
        match (ParseCard (clientGet w pos 1) line).2 with
        | Ok card => Ok card
        | Fail _ =>
            match (ParseCard (clientGet w pos 2) line).2 with
            | Ok card => Ok card
            | Fail err => Fail (ErrFailedToParse line err)
            end
        end
    end.
Proof.
  unfold resolveLine.
  rewrite (parseAttempts_step w pos line 2 0).
  destruct (ParseCard (clientGet w pos 0) line) as [ev0 [c0|e0]]; [reflexivity|].
  rewrite (parseAttempts_step w pos line 1 1).
  destruct (ParseCard (clientGet w pos 1) line) as [ev1 [c1|e1]]; [reflexivity|].
  rewrite (parseAttempts_step w pos line 0 2).
  destruct (ParseCard (clientGet w pos 2) line) as [ev2 [c2|e2]]; reflexivity.
Qed.

(** X8: a line resolves to a card exactly when one of the at most three
    calls of [ParseCard] returns it and all calls before that one failed;
    it fails exactly when all three calls fail, with the error of the
    third call wrapped in "failed to parse". *)
Theorem resolveLine_first_success `{Regexp} (w : World) (pos : nat) (line : string) :
  (forall card,
     (resolveLine w pos line).2 = Ok card
     <-> exists k, (k < 3)%nat
                   /\ (ParseCard (clientGet w pos k) line).2 = Ok card
                   /\ forall k', (k' < k)%nat ->
                        isOk (ParseCard (clientGet w pos k') line).2 = false)
  /\ (forall err,
        (resolveLine w pos line).2 = Fail err
        <-> exists cause,
              err = ErrFailedToParse line cause
              /\ (ParseCard (clientGet w pos 2) line).2 = Fail cause
              /\ forall k, (k < 3)%nat ->
                   isOk (ParseCard (clientGet w pos k) line).2 = false).
Proof.
  rewrite resolveLine_result.
  destruct (ParseCard (clientGet w pos 0) line).2 as [c0|e0] eqn:E0;
    [|destruct (ParseCard (clientGet w pos 1) line).2 as [c1|e1] eqn:E1;
      [|destruct (ParseCard (clientGet w pos 2) line).2 as [c2|e2] eqn:E2]].
  - split.
    + intros card. split.
      * intros Heq. exists 0%nat. split; [lia|]. split; [congruence|]. intros k' Hk; lia.
      * intros (k & Hk & Hok & Hbefore).
        destruct k as [|k]; [congruence|].
        specialize (Hbefore 0%nat ltac:(lia)). rewrite E0 in Hbefore. discriminate.
    + intros err. split; [discriminate|].
      intros (cause & _ & _ & Hall). specialize (Hall 0%nat ltac:(lia)).
      rewrite E0 in Hall. discriminate.
  - split.
    + intros card. split.
      * intros Heq. exists 1%nat. split; [lia|]. split; [congruence|].
        intros k' Hk. assert (k' = 0%nat) as -> by lia. rewrite E0. reflexivity.
      * intros (k & Hk & Hok & Hbefore).
        destruct k as [|[|k]]; [congruence|congruence|].
        specialize (Hbefore 1%nat ltac:(lia)). rewrite E1 in Hbefore. discriminate.
    + intros err. split; [discriminate|].
      intros (cause & _ & _ & Hall). specialize (Hall 1%nat ltac:(lia)).
      rewrite E1 in Hall. discriminate.
  - split.
    + intros card. split.
      * intros Heq. exists 2%nat. split; [lia|]. split; [congruence|].
        intros k' Hk. destruct k' as [|[|k']]; [rewrite E0|rewrite E1|lia]; reflexivity.
      * intros (k & Hk & Hok & Hbefore).
        destruct k as [|[|[|k]]]; [congruence|congruence|congruence|lia].
    + intros err. split; [discriminate|].
      intros (cause & _ & _ & Hall). specialize (Hall 2%nat ltac:(lia)).
      rewrite E2 in Hall. discriminate.
  - split.
    + intros card. split; [discriminate|].
      intros (k & Hk & Hok & _).
      destruct k as [|[|[|k]]]; [congruence|congruence|congruence|lia].
    + intros err. split.
      * intros Heq. exists e2. split; [congruence|]. split; [reflexivity|].
        intros k Hk. destruct k as [|[|[|k]]];
          [rewrite E0|rewrite E1|rewrite E2|lia]; reflexivity.
      * intros (cause & -> & Hc & _). congruence.
Qed.

Lemma resolveLine_first_success_witness :
  exists card, (resolveLine (H := backtracking) calmWorld 0 oneLine).2 = Ok card
               /\ Name card = "Opt".
Proof.
  destruct (resolveLine_first_success (H := backtracking) calmWorld 0 oneLine) as [Hok _].
  eexists. split.
  - apply Hok. exists 0%nat. split; [lia|]. split; [reflexivity|].
    intros k' Hk. lia.
  - reflexivity.
Defined.

Lemma lookupLoop_events_nonempty get card (fuel attempt : nat) :
  (lookupLoop get card (S fuel) attempt).1 <> [].
Proof.
  rewrite lookupLoop_step. cbv zeta.
  destruct (get attempt (cardURL card)) as [|code body].
  - destruct (Z.of_nat attempt =? maxRetries - 1); discriminate.
  - destruct (code =? StatusTooManyRequests).
    + destruct (Z.of_nat attempt =? maxRetries - 1); discriminate.
    + destruct (negb (code =? StatusOK)); [discriminate|]. destruct body; discriminate.
Qed.

(** A call of [ParseCard] that performs nothing failed before the lookup,
    and so it does whatever the catalog answers. *)
Lemma ParseCard_no_events `{Regexp} get line :
  (ParseCard get line).1 = [] ->
  isOk (ParseCard get line).2 = false
  /\ forall get', ParseCard get' line = ParseCard get line.
Proof.
  unfold ParseCard. destruct (decide (TrimSpace line = "")); [auto|].
  destruct (match FindStringSubmatch strictPattern (TrimSpace line) with
            | Some matches => Some matches
            | None =>
                match FindStringSubmatch fallbackPattern (TrimSpace line) with
                | Some matches => Some (<[4%nat := TrimSpace (group 4 matches)]> matches)
                | None => None
                end
            end) as [matches|]; [|auto].
  destruct (Atoi (group 1 matches)) as [quantity|]; [|auto].
  change (Z.to_nat maxRetries) with 3%nat.
  match goal with
  | |- context [lookupLoop get ?c 3 0] =>
      pose proof (lookupLoop_events_nonempty get c 2 0) as Hne;
      destruct (lookupLoop get c 3 0) as [events [card|e]]
  end; cbn [fst] in *; intros Hnil; contradiction.
Qed.

(** X9: a line that fails before the lookup (blank, not matching either
    pattern, or with a quantity out of range) is nevertheless tried three
    times: the goroutine sleeps 1 s and 2 s between the tries, sends no
    request, and reports the failure wrapped in "failed to parse". *)
Theorem unparsable_line_is_tried_three_times `{Regexp}
    (w : World) (pos : nat) (line : string) get (err : Err) :
  ParseCard get line = ([], Fail err) ->
  resolveLine w pos line
  = ([EvSleep (1 * Second); EvSleep (2 * Second)], Fail (ErrFailedToParse line err)).
Proof.
  intros Hp.
  assert (Hall : forall get', ParseCard get' line = ([], Fail err)).
  { intros get'. rewrite <- Hp. apply ParseCard_no_events. rewrite Hp. reflexivity. }
  unfold resolveLine.
  rewrite (parseAttempts_step w pos line 2 0), Hall.
  rewrite (parseAttempts_step w pos line 1 1), Hall.
  rewrite (parseAttempts_step w pos line 0 2), Hall.
  reflexivity.
Qed.

Lemma unparsable_line_is_tried_three_times_witness :
  resolveLine (H := backtracking) calmWorld 0 "Opt (xln) 65"
  = ([EvSleep (1 * Second); EvSleep (2 * Second)],
     Fail (ErrFailedToParse "Opt (xln) 65" (ErrCouldNotParse "Opt (xln) 65"))).
Proof.
  apply (unparsable_line_is_tried_three_times (H := backtracking) calmWorld 0
           "Opt (xln) 65" (clientGet calmWorld 0 0)).
  vm_compute. reflexivity.
Defined.

(* --------------------------------------------------------------------- *)
(** ** Requests and the rate limiter *)
(* --------------------------------------------------------------------- *)

Lemma gated_app (a b : list Event) : gated a -> gated b -> gated (a ++ b).
Proof.
  intros Ha Hb. induction Ha; cbn [app]; [exact Hb|constructor; assumption..].
Qed.

Lemma lookupLoop_gated get card (fuel : nat) : forall attempt,
  gated (lookupLoop get card fuel attempt).1.
Proof.
  induction fuel as [|fuel IH]; intros attempt; [constructor|].
  rewrite lookupLoop_step. cbv zeta. specialize (IH (S attempt)).
  destruct (get attempt (cardURL card)) as [|code body].
  - destruct (Z.of_nat attempt =? maxRetries - 1); cbn [fst app];
      repeat constructor. exact IH.
  - destruct (code =? StatusTooManyRequests).
    + destruct (Z.of_nat attempt =? maxRetries - 1); cbn [fst app];
        repeat constructor. exact IH.
    + destruct (negb (code =? StatusOK)); [repeat constructor|].
      destruct body; repeat constructor.
Qed.

Lemma ParseCard_gated `{Regexp} get line : gated (ParseCard get line).1.
Proof.
  unfold ParseCard. destruct (decide (TrimSpace line = "")); [constructor|].
  destruct (match FindStringSubmatch strictPattern (TrimSpace line) with
            | Some matches => Some matches
            | None =>
                match FindStringSubmatch fallbackPattern (TrimSpace line) with
                | Some matches => Some (<[4%nat := TrimSpace (group 4 matches)]> matches)
                | None => None
                end
            end) as [matches|]; [|constructor].
  destruct (Atoi (group 1 matches)) as [quantity|]; [|constructor].
  match goal with
  | |- context [lookupLoop ?g ?c ?f ?a] =>
      pose proof (lookupLoop_gated g c f a) as Hg;
      destruct (lookupLoop g c f a) as [events [card|e]]
  end; exact Hg.
Qed.

Lemma parseAttempts_gated `{Regexp} w pos line (fuel : nat) : forall attempt cur,
  gated (parseAttempts w pos line fuel attempt cur).1.
Proof.
  induction fuel as [|fuel IH]; intros attempt cur; [constructor|].
  rewrite parseAttempts_step.
  pose proof (ParseCard_gated (clientGet w pos attempt) line) as Hp.
  destruct (ParseCard (clientGet w pos attempt) line) as [events [card|err]];
    cbn [fst] in *; [exact Hp|].
  apply gated_app; [exact Hp|]. apply gated_app; [|apply IH].
  destruct (Z.of_nat attempt <? 2); repeat constructor.
Qed.

Lemma fetchLoop_step get uri retries (fuel attempt : nat) lastErr :
  fetchLoop get uri retries (S fuel) attempt lastErr
  = let backoff :=
      if 0 <? Z.of_nat attempt
      then [EvSleep (dmul (shl1 (Z.of_nat attempt - 1)) Second)] else [] in
    let call := backoff ++ [EvRateLimitWait; EvGet uri] in
    let continue (more : list Event) (err : Err) :=
      (call ++ more ++ (fetchLoop get uri retries fuel (S attempt) (Some err)).1,
       (fetchLoop get uri retries fuel (S attempt) (Some err)).2) in
    match get attempt uri with
    | TransportError => continue [] ErrTransport
    | Response code body =>
        if negb (code =? StatusOK) then
          continue
            (if (code =? StatusTooManyRequests) && (Z.of_nat attempt <? retries)
             then [EvSleep (dmul (5 * Second) (shl1 (Z.of_nat attempt)))] else [])
            (ErrHTTPStatus code)
        else
          match body with
          | None => continue [] ErrRead
          | Some bytes => (call, Ok bytes)
          end
    end.
Proof.
  cbn [fetchLoop]. cbv zeta.
  destruct (get attempt uri) as [|code body].
  - destruct (fetchLoop get uri retries fuel (S attempt) (Some ErrTransport)). reflexivity.
  - destruct (negb (code =? StatusOK)).
    + destruct (fetchLoop get uri retries fuel (S attempt) (Some (ErrHTTPStatus code))).
      reflexivity.
    + destruct body; [reflexivity|].
      destruct (fetchLoop get uri retries fuel (S attempt) (Some ErrRead)). reflexivity.
Qed.

Lemma fetchLoop_gated get uri retries (fuel : nat) : forall attempt lastErr,
  gated (fetchLoop get uri retries fuel attempt lastErr).1.
Proof.
  induction fuel as [|fuel IH]; intros attempt lastErr; [constructor|].
  rewrite fetchLoop_step. cbv zeta.
  assert (Hcall : gated ((if 0 <? Z.of_nat attempt
                          then [EvSleep (dmul (shl1 (Z.of_nat attempt - 1)) Second)]
                          else []) ++ [EvRateLimitWait; EvGet uri])).
  { destruct (0 <? Z.of_nat attempt); repeat constructor. }
  destruct (get attempt uri) as [|code body]; cbn [fst].
  - apply gated_app; [exact Hcall|]. apply IH.
  - destruct (negb (code =? StatusOK)); cbn [fst].
    + apply gated_app; [exact Hcall|]. apply gated_app; [|apply IH].
      destruct ((code =? StatusTooManyRequests) && (Z.of_nat attempt <? retries));
        repeat constructor.
    + destruct body; cbn [fst]; [exact Hcall|].
      apply gated_app; [exact Hcall|]. apply IH.
Qed.

(** X10: every HTTP request of the resolver and of the image fetcher comes
    directly after a call of [rateLimitWait], and every such call is
    followed by a request: what [ParseCard], a resolution goroutine and
    [FetchImageWithRetry] perform is made of sleeps and of pairs of a call
    of the limiter and a request. *)
Theorem requests_pass_the_rate_limiter `{Regexp} :
  (forall get line, gated (ParseCard get line).1)
  /\ (forall w pos line, gated (resolveLine w pos line).1)
  /\ (forall get uri retries, gated (FetchImageWithRetry get uri retries).1).
Proof.
  split; [apply ParseCard_gated|]. split.
  - intros w pos line. unfold resolveLine.
    pose proof (parseAttempts_gated w pos line 3 0 (Ok emptyCard)) as Hg.
    destruct (parseAttempts w pos line 3 0 (Ok emptyCard)) as [events [card|err]];
      exact Hg.
  - intros get uri retries. apply fetchLoop_gated.
Qed.

(* --------------------------------------------------------------------- *)
(** ** When a lookup and an image download succeed *)
(* --------------------------------------------------------------------- *)

Lemma lookupLoop_Ok get card (fuel : nat) : forall (attempt : nat) card',
  (attempt + fuel = 3)%nat -> (0 < fuel)%nat ->
  ((lookupLoop get card fuel attempt).2 = Ok card'
   <-> exists k j,
         (attempt <= k < 3)%nat
         /\ get k (cardURL card) = Response StatusOK (Some j)
         /\ card' = Decode j card
         /\ forall k', (attempt <= k' < k)%nat -> retryable (get k' (cardURL card)) = true).
Proof.
  induction fuel as [|fuel IH]; intros attempt card' Hsum Hpos; [lia|].
  rewrite lookupLoop_step. cbv zeta.
  assert (Hlast : (Z.of_nat attempt =? maxRetries - 1) = (fuel =? 0)%nat).
  { unfold maxRetries. destruct (Z.eqb_spec (Z.of_nat attempt) (3 - 1));
      destruct (Nat.eqb_spec fuel 0); lia. }
  rewrite Hlast.
  (* the characterization, once attempt [attempt] is known to be retried *)
  assert (Hnext : retryable (get attempt (cardURL card)) = true ->
                  (fuel =? 0)%nat = false ->
                  ((lookupLoop get card fuel (S attempt)).2 = Ok card'
                   <-> exists k j,
                         (attempt <= k < 3)%nat
                         /\ get k (cardURL card) = Response StatusOK (Some j)
                         /\ card' = Decode j card
                         /\ forall k', (attempt <= k' < k)%nat ->
                              retryable (get k' (cardURL card)) = true)).
  { intros Hretry Hf. apply Nat.eqb_neq in Hf.
    rewrite (IH (S attempt) card') by lia. split.
    - intros (k & j & Hk & Hget & Hc & Hbefore). exists k, j.
      split; [lia|]. split; [exact Hget|]. split; [exact Hc|].
      intros k' Hk'. destruct (decide (k' = attempt)) as [->|Hne]; [exact Hretry|].
      apply Hbefore. lia.
    - intros (k & j & Hk & Hget & Hc & Hbefore).
      destruct (decide (k = attempt)) as [->|Hne].
      + rewrite Hget in Hretry. discriminate Hretry.
      + exists k, j. split; [lia|]. split; [exact Hget|]. split; [exact Hc|].
        intros k' Hk'. apply Hbefore. lia. }
  (* no success when attempt [attempt] ends the call *)
  assert (Hstop : (forall j, get attempt (cardURL card) <> Response StatusOK (Some j)) ->
                  (retryable (get attempt (cardURL card)) = true -> (fuel =? 0)%nat = true) ->
                  ~ exists k j,
                      (attempt <= k < 3)%nat
                      /\ get k (cardURL card) = Response StatusOK (Some j)
                      /\ card' = Decode j card
                      /\ forall k', (attempt <= k' < k)%nat ->
                           retryable (get k' (cardURL card)) = true).
  { intros Hno Hend (k & j & Hk & Hget & _ & Hbefore).
    destruct (decide (k = attempt)) as [->|Hne]; [exact (Hno j Hget)|].
    assert (Hr : retryable (get attempt (cardURL card)) = true) by (apply Hbefore; lia).
    specialize (Hend Hr). apply Nat.eqb_eq in Hend. lia. }
  destruct (get attempt (cardURL card)) as [|code body] eqn:Eget.
  - destruct (fuel =? 0)%nat eqn:Ef; cbn [snd].
    + split; [discriminate|]. intros Hex. exfalso. revert Hex. apply Hstop.
      * discriminate.
      * reflexivity.
    + apply Hnext; reflexivity.
  - destruct (Z.eqb_spec code StatusTooManyRequests) as [->|H429].
    + destruct (fuel =? 0)%nat eqn:Ef; cbn [snd].
      * split; [discriminate|]. intros Hex. exfalso. revert Hex. apply Hstop.
        -- discriminate.
        -- reflexivity.
      * apply Hnext; reflexivity.
    + assert (Hnr : retryable (Response code body) = false).
      { cbn. apply Z.eqb_neq. exact H429. }
      destruct (Z.eqb_spec code StatusOK) as [->|H200]; cbn [negb snd].
      * destruct body as [j|].
        -- split.
           ++ intros Heq. injection Heq as <-. exists attempt, j.
              split; [lia|]. split; [exact Eget|]. split; [reflexivity|].
              intros k' Hk'. lia.
           ++ intros (k & j' & Hk & Hget & Hc & Hbefore).
              destruct (decide (k = attempt)) as [->|Hne].
              ** rewrite Eget in Hget. injection Hget as <-. cbn [snd]. congruence.
              ** specialize (Hbefore attempt ltac:(lia)). rewrite Eget in Hbefore.
                 discriminate Hbefore.
        -- split; [discriminate|]. intros Hex. exfalso. revert Hex. apply Hstop.
           ++ discriminate.
           ++ rewrite Hnr. discriminate.
      * split; [discriminate|]. intros Hex. exfalso. revert Hex. apply Hstop.
        -- intros j Hc. injection Hc as Hc _. contradiction.
        -- rewrite Hnr. discriminate.
Qed.

(** X11: the lookup loop of [ParseCard] yields a card exactly when one of
    its three attempts is answered with status 200 and JSON that decodes,
    every attempt before it having met a transport error or status 429;
    the card is then the parsed card with the fields of that answer
    stored into it. *)
Theorem lookup_succeeds_on_first_usable_answer get (card card' : Card) :
  (lookupFrom get card 0).2 = Ok card'
  <-> exists k j,
        (k < 3)%nat
        /\ get k (cardURL card) = Response StatusOK (Some j)
        /\ card' = Decode j card
        /\ forall k', (k' < k)%nat -> retryable (get k' (cardURL card)) = true.
Proof.
  unfold lookupFrom. change (Z.to_nat maxRetries - 0)%nat with 3%nat.
  rewrite (lookupLoop_Ok get card 3 0 card') by lia. split.
  - intros (k & j & Hk & Hget & Hc & Hbefore). exists k, j.
    split; [lia|]. split; [exact Hget|]. split; [exact Hc|].
    intros k' Hk'. apply Hbefore. lia.
  - intros (k & j & Hk & Hget & Hc & Hbefore). exists k, j.
    split; [lia|]. split; [exact Hget|]. split; [exact Hc|].
    intros k' Hk'. apply Hbefore. lia.
Qed.

Lemma lookup_succeeds_on_first_usable_answer_witness :
  (lookupFrom flakyGet optCard 0).2 = Ok (Decode (catalogAnswer "normal") optCard).
Proof.
  apply (proj2 (lookup_succeeds_on_first_usable_answer flakyGet optCard _)).
  exists 2%nat, (catalogAnswer "normal").
  split; [lia|]. split; [reflexivity|]. split; [reflexivity|].
  intros k' Hk'. destruct k' as [|[|k']]; [reflexivity|reflexivity|lia].
Defined.

Lemma fetchLoop_result_step get uri retries (fuel attempt : nat) lastErr :
  (fetchLoop get uri retries (S fuel) attempt lastErr).2
  = match fetchAttempt (get attempt uri) with
    | Ok bytes => Ok bytes
    | Fail err => (fetchLoop get uri retries fuel (S attempt) (Some err)).2
    end
  /\ countGets (fetchLoop get uri retries (S fuel) attempt lastErr).1
     = S (match fetchAttempt (get attempt uri) with
          | Ok _ => 0
          | Fail err => countGets (fetchLoop get uri retries fuel (S attempt) (Some err)).1
          end).
Proof.
  rewrite fetchLoop_step. cbv zeta. unfold fetchAttempt.
  set (call := (if 0 <? Z.of_nat attempt
                then [EvSleep (dmul (shl1 (Z.of_nat attempt - 1)) Second)]
                else []) ++ [EvRateLimitWait; EvGet uri]).
  assert (Hcall : countGets call = 1%nat)
    by (unfold call; destruct (0 <? Z.of_nat attempt); reflexivity).
  clearbody call.
  destruct (get attempt uri) as [|code body]; cbn [fst snd].
  - split; [reflexivity|]. rewrite countGets_app, Hcall. reflexivity.
  - destruct (negb (code =? StatusOK)); cbn [fst snd].
    + split; [reflexivity|]. rewrite !countGets_app, Hcall.
      destruct ((code =? StatusTooManyRequests) && (Z.of_nat attempt <? retries));
        reflexivity.
    + destruct body; cbn [fst snd].
      * split; [reflexivity|]. rewrite Hcall. reflexivity.
      * split; [reflexivity|]. rewrite countGets_app, Hcall. reflexivity.
Qed.

Lemma fetchLoop_Ok get uri retries (fuel : nat) : forall (attempt : nat) lastErr body,
  (fetchLoop get uri retries fuel attempt lastErr).2 = Ok body
  <-> exists k, (attempt <= k < attempt + fuel)%nat
                /\ fetchAttempt (get k uri) = Ok body
                /\ forall k', (attempt <= k' < k)%nat ->
                     isOk (fetchAttempt (get k' uri)) = false.
Proof.
  induction fuel as [|fuel IH]; intros attempt lastErr body.
  - cbn [fetchLoop snd]. split; [discriminate|]. intros (k & Hk & _). lia.
  - rewrite (proj1 (fetchLoop_result_step get uri retries fuel attempt lastErr)).
    destruct (fetchAttempt (get attempt uri)) as [bytes|err] eqn:Ea.
    + split.
      * intros Heq. exists attempt. split; [lia|]. split; [congruence|].
        intros k' Hk'. lia.
      * intros (k & Hk & Hok & Hbefore).
        destruct (decide (k = attempt)) as [->|Hne]; [congruence|].
        specialize (Hbefore attempt ltac:(lia)). rewrite Ea in Hbefore.
        discriminate Hbefore.
    + rewrite IH. split.
      * intros (k & Hk & Hok & Hbefore). exists k. split; [lia|]. split; [exact Hok|].
        intros k' Hk'. destruct (decide (k' = attempt)) as [->|Hne].
        -- rewrite Ea. reflexivity.
        -- apply Hbefore. lia.
      * intros (k & Hk & Hok & Hbefore).
        destruct (decide (k = attempt)) as [->|Hne]; [congruence|].
        exists k. split; [lia|]. split; [exact Hok|].
        intros k' Hk'. apply Hbefore. lia.
Qed.

Lemma fetchLoop_gets get uri retries (fuel : nat) : forall (attempt : nat) lastErr,
  (countGets (fetchLoop get uri retries fuel attempt lastErr).1 <= fuel)%nat.
Proof.
  induction fuel as [|fuel IH]; intros attempt lastErr; [reflexivity|].
  rewrite (proj2 (fetchLoop_result_step get uri retries fuel attempt lastErr)).
  destruct (fetchAttempt (get attempt uri)) as [bytes|err]; [lia|].
  specialize (IH (S attempt) (Some err)). lia.
Qed.

Lemma fetchLoop_Fail get uri retries (fuel : nat) : forall (attempt : nat) lastErr,
  (forall k, (attempt <= k < attempt + fuel)%nat ->
     isOk (fetchAttempt (get k uri)) = false) ->
  (fetchLoop get uri retries fuel attempt lastErr).2
  = Fail (ErrFetchImage (retries + 1)
            (match fuel with
             | O => lastErr
             | S n => failOf (fetchAttempt (get (attempt + n)%nat uri))
             end))
  /\ countGets (fetchLoop get uri retries fuel attempt lastErr).1 = fuel.
Proof.
  induction fuel as [|fuel IH]; intros attempt lastErr Hall; [split; reflexivity|].
  destruct (fetchLoop_result_step get uri retries fuel attempt lastErr) as [-> ->].
  pose proof (Hall attempt ltac:(lia)) as Ha.
  destruct (fetchAttempt (get attempt uri)) as [bytes|err] eqn:Ea; [discriminate Ha|].
  destruct (IH (S attempt) (Some err)) as [-> ->].
  { intros k Hk. apply Hall. lia. }
  split; [|reflexivity]. destruct fuel as [|n].
  - rewrite Nat.add_0_r, Ea. reflexivity.
  - replace (attempt + S n)%nat with (S attempt + n)%nat by lia. reflexivity.
Qed.

(** X12: for [retries] an [int] below the largest one,
    [FetchImageWithRetry] returns the bytes of the first of its
    [retries + 1] attempts that is answered with status 200 and a readable
    body; it sends at most [retries + 1] requests; when no attempt is
    usable it sends exactly that many and fails with "failed to fetch image
    after retries+1 attempts" around the error of the last attempt; with a
    negative [retries] it sends no request and fails without a cause. *)
Theorem fetch_returns_first_usable_answer get (uri : string) (retries : Z) :
  minDuration <= retries < maxDuration ->
  let n := Z.to_nat (retries + 1) in
  let run := FetchImageWithRetry get uri retries in
  (forall body,
     run.2 = Ok body
     <-> exists k, (k < n)%nat
                   /\ fetchAttempt (get k uri) = Ok body
                   /\ forall k', (k' < k)%nat -> isOk (fetchAttempt (get k' uri)) = false)
  /\ (countGets run.1 <= n)%nat
  /\ ((forall k, (k < n)%nat -> isOk (fetchAttempt (get k uri)) = false) ->
      run.2 = Fail (ErrFetchImage (retries + 1)
                      (match n with
                       | O => None
                       | S m => failOf (fetchAttempt (get m uri))
                       end))
      /\ countGets run.1 = n)
  /\ (retries < 0 -> run = ([], Fail (ErrFetchImage (retries + 1) None))).
Proof.
  intros _. cbn zeta. unfold FetchImageWithRetry. split; [|split; [|split]].
  - intros body. rewrite fetchLoop_Ok. split.
    + intros (k & Hk & Hok & Hbefore). exists k. split; [lia|]. split; [exact Hok|].
      intros k' Hk'. apply Hbefore. lia.
    + intros (k & Hk & Hok & Hbefore). exists k. split; [lia|]. split; [exact Hok|].
      intros k' Hk'. apply Hbefore. lia.
  - apply fetchLoop_gets.
  - intros Hall.
    apply (fetchLoop_Fail get uri retries (Z.to_nat (retries + 1)) 0 None).
    intros k Hk. apply Hall. lia.
  - intros Hneg. replace (Z.to_nat (retries + 1)) with 0%nat by lia. reflexivity.
Qed.

Lemma fetch_returns_first_usable_answer_witness :
  (FetchImageWithRetry (fun k _ => match k with
                                   | O => TransportError
                                   | S O => Response 503 (Some [])
                                   | _ => Response StatusOK (Some [Byte.x2a])
                                   end) "u" 2).2
  = Ok [Byte.x2a]
  /\ FetchImageWithRetry (fun _ _ => TransportError) "u" (-1)
     = ([], Fail (ErrFetchImage 0 None)).
Proof.
  split.
  - apply (proj1 (fetch_returns_first_usable_answer
                    (fun k _ => match k with
                                | O => TransportError
                                | S O => Response 503 (Some [])
                                | _ => Response StatusOK (Some [Byte.x2a])
                                end) "u" 2 ltac:(unfold minDuration, maxDuration; lia))).
    exists 2%nat. split; [cbn; lia|]. split; [reflexivity|].
    intros k' Hk'. destruct k' as [|[|k']]; [reflexivity|reflexivity|lia].
  - apply (proj2 (proj2 (proj2 (fetch_returns_first_usable_answer
                                  (fun _ _ => TransportError) "u" (-1)
                                  ltac:(unfold minDuration, maxDuration; lia))))).
    lia.
Defined.

(** X13: the delays of an image download whose three attempts all fail:
    before the second attempt it sleeps 1 s and before the third 2 s; an
    answer with status 429 to the first or second attempt adds a sleep of
    5 s resp. 10 s before that, and one to the last attempt adds none. *)
Theorem fetch_delays_when_all_attempts_fail get (uri : string) :
  (forall k, (k < 3)%nat -> isOk (fetchAttempt (get k uri)) = false) ->
  sleeps (FetchImageWithRetry get uri 2).1
  = (if throttled (get 0%nat uri) then [5 * Second] else [])
      ++ [1 * Second]
      ++ (if throttled (get 1%nat uri) then [10 * Second] else [])
      ++ [2 * Second].
Proof.
  intros Hall. unfold FetchImageWithRetry.
  change (Z.to_nat (2 + 1)) with 3%nat.
  pose proof (Hall 0%nat ltac:(lia)) as H0.
  pose proof (Hall 1%nat ltac:(lia)) as H1.
  pose proof (Hall 2%nat ltac:(lia)) as H2.
  rewrite (fetchLoop_step get uri 2 2 0). cbv zeta.
  unfold fetchAttempt, throttled in *.
  destruct (get 0%nat uri) as [|code0 body0];
    [|destruct (Z.eqb_spec code0 StatusOK) as [->|Hc0];
      [destruct body0; [discriminate H0|]
      |destruct (Z.eqb_spec code0 StatusTooManyRequests) as [->|Ht0]]];
    cbn [negb andb fst];
    rewrite (fetchLoop_step get uri 2 1 1); cbv zeta;
    (destruct (get 1%nat uri) as [|code1 body1];
     [|destruct (Z.eqb_spec code1 StatusOK) as [->|Hc1];
       [destruct body1; [discriminate H1|]
       |destruct (Z.eqb_spec code1 StatusTooManyRequests) as [->|Ht1]]]);
    cbn [negb andb fst];
    rewrite (fetchLoop_step get uri 2 0 2); cbv zeta;
    (destruct (get 2%nat uri) as [|code2 body2];
     [|destruct (Z.eqb_spec code2 StatusOK) as [->|Hc2];
       [destruct body2; [discriminate H2|]
       |destruct (Z.eqb_spec code2 StatusTooManyRequests) as [->|Ht2]]]);
    reflexivity.
Qed.

Lemma fetch_delays_when_all_attempts_fail_witness :
  sleeps (FetchImageWithRetry (fun _ _ => Response StatusTooManyRequests None) "u" 2).1
  = [5 * Second; 1 * Second; 10 * Second; 2 * Second].
Proof.
  rewrite (fetch_delays_when_all_attempts_fail
             (fun _ _ => Response StatusTooManyRequests None) "u").
  - reflexivity.
  - intros k Hk. reflexivity.
Defined.

(* --------------------------------------------------------------------- *)
(** ** The generated document *)
(* --------------------------------------------------------------------- *)

Lemma collectURIs_completion_order (w : World) (order : list nat) (cards : list Card) :
  forall k, collectURIs (withCompletionOrder order w) cards k = collectURIs w cards k.
Proof.
  induction cards as [|card rest IH]; intros k; [reflexivity|].
  cbn [collectURIs]. rewrite IH. f_equal.
  generalize k. induction (Z.to_nat (Quantity card)) as [|n IHn]; intros k0;
    [reflexivity|].
  cbn [copies]. rewrite IHn. reflexivity.
Qed.

Lemma pagesInOrder_completion_order (w : World) (order : list nat) (allURIs : list string) :
  pagesInOrder (withCompletionOrder order w) allURIs = pagesInOrder w allURIs.
Proof.
  unfold pagesInOrder. induction (seq 0 (length allURIs)) as [|i idxs IH]; [reflexivity|].
  cbn [flat_map]. rewrite IH. reflexivity.
Qed.

(** X14: the result of [GeneratePDF] does not depend on the order in which
    the image goroutines finish: each writes to the slots of its own
    index. *)
Theorem GeneratePDF_ignores_completion_order
    (w : World) (order : list nat) (cards : list Card) :
  GeneratePDF (withCompletionOrder order w) cards = GeneratePDF w cards.
Proof.
  rewrite !GeneratePDF_pages. unfold allURIsOf.
  rewrite collectURIs_completion_order, pagesInOrder_completion_order. reflexivity.
Qed.

Lemma pagesInOrder_elem (w : World) (allURIs : list string) (p : Page) :
  p ∈ pagesInOrder w allURIs ->
  exists i uri body,
    allURIs !! i = Some uri /\ fetched w i uri = Ok body /\ p = cardPage w body.
Proof.
  unfold pagesInOrder. intros Hp. apply list_elem_of_In, in_flat_map in Hp.
  destruct Hp as (i & _ & Hp). unfold pageOfIndex in Hp.
  destruct (allURIs !! i) as [uri|] eqn:Eu; [|destruct Hp].
  destruct (fetched w i uri) as [body|e] eqn:Ef; [|destruct Hp].
  destruct Hp as [<-|[]]. exists i, uri, body. auto.
Qed.

(** X15: a document [GeneratePDF] returns is the one [WriteTo] accepted;
    it has at most one page per uri; every page has its background filled;
    and artwork on a page is always the image holder of the converted
    bytes fetched for one of the uris. *)
Theorem GeneratePDF_document_shape (w : World) (cards : list Card) (doc : Buffer) :
  GeneratePDF w cards = Ok doc ->
  WriteTo w doc = true
  /\ (length doc <= length (allURIsOf w cards))%nat
  /\ Forall (fun p => filled p = true) doc
  /\ (forall p art, p ∈ doc -> artwork p = Some art ->
        exists i uri body converted,
          allURIsOf w cards !! i = Some uri
          /\ fetched w i uri = Ok body
          /\ convertTo8Bit w body = Ok converted
          /\ ImageHolderByReader w converted = Some art).
Proof.
  rewrite GeneratePDF_pages. unfold writePDF.
  destruct (WriteTo w (pagesInOrder w (allURIsOf w cards))) eqn:Ew; [|discriminate].
  intros Heq. injection Heq as <-. split; [exact Ew|]. split; [|split].
  - rewrite pagesInOrder_length.
    etransitivity; [apply length_filter|]. rewrite length_seq. reflexivity.
  - apply Forall_forall. intros p Hp.
    destruct (pagesInOrder_elem w _ p Hp) as (i & uri & body & _ & _ & ->). reflexivity.
  - intros p art Hp Hart.
    destruct (pagesInOrder_elem w _ p Hp) as (i & uri & body & Hu & Hf & ->).
    unfold cardPage in Hart. cbn [artwork] in Hart.
    destruct (convertTo8Bit w body) as [converted|e] eqn:Ec; [|discriminate Hart].
    exists i, uri, body, converted. auto.
Qed.

Lemma GeneratePDF_document_shape_witness :
  exists doc,
    GeneratePDF calmWorld (cardsOf (H := backtracking) calmWorld twoLines) = Ok doc
    /\ Forall (fun p => filled p = true) doc.
Proof.
  eexists. split; [vm_compute; reflexivity|].
  refine (proj1 (proj2 (proj2 (GeneratePDF_document_shape calmWorld
                                 (cardsOf (H := backtracking) calmWorld twoLines) _ _)))).
  vm_compute. reflexivity.
Defined.

Lemma collectURIs_positive (w : World) (cards : list Card) : forall k,
  collectURIs w cards k
  = collectURIs w (filter (fun card => 0 < Quantity card) cards) k.
Proof.
  induction cards as [|card rest IH]; intros k; [reflexivity|].
  rewrite filter_cons. destruct (decide (0 < Quantity card)) as [Hq|Hq].
  - cbn [collectURIs]. rewrite IH. reflexivity.
  - cbn [collectURIs]. replace (Z.to_nat (Quantity card)) with 0%nat by lia.
    cbn [copies app]. rewrite Nat.add_0_r. apply IH.
Qed.

(** X16: a card whose quantity is zero or negative (the line "0 Opt (xln)
    65" parses and is looked up) adds no uri and no page: the document is
    the one of the cards with a positive quantity; the document of no
    cards at all is the empty document, written without any download. *)
Theorem GeneratePDF_skips_cards_without_copies (w : World) (cards : list Card) :
  allURIsOf w cards = allURIsOf w (filter (fun card => 0 < Quantity card) cards)
  /\ GeneratePDF w cards
     = GeneratePDF w (filter (fun card => 0 < Quantity card) cards)
  /\ (Forall (fun card => Quantity card <= 0) cards ->
      GeneratePDF w cards = writePDF w []).
Proof.
  assert (Hu : allURIsOf w cards
               = allURIsOf w (filter (fun card => 0 < Quantity card) cards)).
  { unfold allURIsOf. rewrite <- collectURIs_positive. reflexivity. }
  split; [exact Hu|]. split.
  - rewrite !GeneratePDF_pages, <- Hu. reflexivity.
  - intros Hall. rewrite GeneratePDF_pages, Hu. clear Hu.
    replace (filter (fun card => 0 < Quantity card) cards) with (@nil Card);
      [reflexivity|].
    symmetry. induction Hall as [|card rest Hq _ IH]; [reflexivity|].
    rewrite filter_cons, decide_False by lia. exact IH.
Qed.

Lemma GeneratePDF_skips_cards_without_copies_witness :
  (resolveLine (H := backtracking) calmWorld 0 "0 Opt (xln) 65").2
  = Ok (withImageURIs
          {| Quantity := 0; Name := "Opt"; CardSet := "xln"; CollectorNumber := "65";
             Layout := "normal"; ImageURIs := ∅ |})
  /\ GeneratePDF calmWorld
       [withImageURIs
          {| Quantity := 0; Name := "Opt"; CardSet := "xln"; CollectorNumber := "65";
             Layout := "normal"; ImageURIs := ∅ |}]
     = Ok [].
Proof.
  split; [vm_compute; reflexivity|].
  rewrite (proj2 (proj2 (GeneratePDF_skips_cards_without_copies calmWorld _))).
  - reflexivity.
  - repeat constructor. cbn. lia.
Defined.

(** X17: a card [ParseCard] returns has the uri of its front face under
    "front"; it has the uri of its back face under "back" exactly when its
    layout is "transform" or "modal_dfc"; it has no other face.  Both uris
    are built from the card's set and collector number as they are after
    the catalog's answer was decoded into the card. *)
Theorem ParseCard_faces `{Regexp} get (line : string) events (card : Card) :
  ParseCard get line = (events, Ok card) ->
  ImageURIs card !! "front" = Some (frontURI card)
  /\ ImageURIs card !! "back"
     = (if decide (Layout card = "transform" \/ Layout card = "modal_dfc")
        then Some (backURI card) else None)
  /\ (forall key, key <> "front" -> key <> "back" -> ImageURIs card !! key = None).
Proof.
  intros Hp. destruct (ParseCard_Ok _ _ _ _ Hp) as [card0 ->].
  unfold withImageURIs. cbn [ImageURIs Layout].
  change (frontURI {| Quantity := Quantity card0; Name := Name card0;
                      CardSet := CardSet card0; CollectorNumber := CollectorNumber card0;
                      Layout := Layout card0; ImageURIs := _ |})
    with (frontURI card0).
  change (backURI {| Quantity := Quantity card0; Name := Name card0;
                     CardSet := CardSet card0; CollectorNumber := CollectorNumber card0;
                     Layout := Layout card0; ImageURIs := _ |})
    with (backURI card0).
  destruct (decide (Layout card0 = "transform" \/ Layout card0 = "modal_dfc")).
  - split; [apply lookup_insert_eq|]. split.
    + rewrite lookup_insert_ne by discriminate. apply lookup_insert_eq.
    + intros key Hf Hb. rewrite !lookup_insert_ne by congruence. apply lookup_empty.
  - split; [apply lookup_insert_eq|]. split.
    + rewrite lookup_insert_ne by discriminate. apply lookup_empty.
    + intros key Hf Hb. rewrite lookup_insert_ne by congruence. apply lookup_empty.
Qed.

Lemma ParseCard_faces_witness :
  ImageURIs
    (withImageURIs
       {| Quantity := 1; Name := "Opt"; CardSet := "xln"; CollectorNumber := "65";
          Layout := "transform"; ImageURIs := ∅ |}) !! "back"
  = Some "https://api.scryfall.com/cards/xln/65?format=image&version=png&face=back".
Proof.
  destruct (ParseCard_faces (H := backtracking) (clientGet backFirstWorld 0 0) oneLine
              [EvRateLimitWait; EvGet "https://api.scryfall.com/cards/xln/65"]
              (withImageURIs
                 {| Quantity := 1; Name := "Opt"; CardSet := "xln";
                    CollectorNumber := "65"; Layout := "transform"; ImageURIs := ∅ |}))
    as (_ & Hback & _).
  - vm_compute. reflexivity.
  - rewrite Hback. reflexivity.
Defined.

(* --------------------------------------------------------------------- *)
(** ** The lines of a decklist *)
(* --------------------------------------------------------------------- *)

Lemma prefix_one_char (a c : ascii) (s : string) :
  String.prefix (String a EmptyString) (String c s) = bool_decide (a = c).
Proof.
  cbn [String.prefix]. destruct (ascii_dec a c) as [Heq|Hne].
  - rewrite bool_decide_eq_true_2 by exact Heq. destruct s; reflexivity.
  - rewrite bool_decide_eq_false_2 by exact Hne. reflexivity.
Qed.

Lemma bytesOf_append (a b : string) : bytesOf (a +:+ b) = bytesOf a ++ bytesOf b.
Proof.
  unfold bytesOf. induction a as [|c a IH]; [reflexivity|].
  change (String c a +:+ b) with (String c (a +:+ b)).
  cbn. f_equal. exact IH.
Qed.

(** After [ReplaceAll(s, "\r", "\n")] no carriage return is left. *)
Lemma replace_CR_leaves_none (s : string) :
  charCR ∉ bytesOf (ReplaceAll s CR LF).
Proof.
  unfold ReplaceAll. induction s as [|c s IH].
  - cbn. apply not_elem_of_nil.
  - cbn [replaceFrom]. unfold CR at 1. rewrite prefix_one_char.
    destruct (bool_decide_reflect (Ascii.ascii_of_nat 13 = c)) as [Heq|Hne].
    + change (String.length CR - 1)%nat with 0%nat.
      rewrite bytesOf_append. intros Hin. apply elem_of_app in Hin as [Hin|Hin].
      * vm_compute in Hin. apply list_elem_of_singleton in Hin. discriminate Hin.
      * exact (IH Hin).
    + unfold bytesOf in *. cbn [String.list_ascii_of_string].
      intros Hin. apply elem_of_cons in Hin as [Hin|Hin]; [|exact (IH Hin)].
      apply Hne. unfold charCR in Hin. congruence.
Qed.

(** The pieces of [Split(s, "\n")] hold no line feed, and no byte that is
    not in [s]. *)
Lemma split_LF_pieces (s : string) : forall cur piece,
  piece ∈ splitFrom LF 0 cur s ->
  (charLF ∈ bytesOf piece -> charLF ∈ bytesOf cur)
  /\ (forall c, c ∈ bytesOf piece -> c ∈ bytesOf cur \/ c ∈ bytesOf s).
Proof.
  induction s as [|c s IH]; intros cur piece Hp.
  - cbn in Hp. apply list_elem_of_singleton in Hp as ->. auto.
  - cbn [splitFrom] in Hp. unfold LF at 1 in Hp. rewrite prefix_one_char in Hp.
    destruct (bool_decide_reflect (Ascii.ascii_of_nat 10 = c)) as [Heq|Hne].
    + change (String.length LF - 1)%nat with 0%nat in Hp.
      apply elem_of_cons in Hp as [->|Hp]; [auto|].
      destruct (IH _ _ Hp) as [H1 H2]. split.
      * intros Hin. apply H1 in Hin. cbn in Hin. apply elem_of_nil in Hin. contradiction.
      * intros c' Hin. destruct (H2 c' Hin) as [Hc|Hc].
        -- cbn in Hc. apply elem_of_nil in Hc. contradiction.
        -- right. unfold bytesOf. cbn [String.list_ascii_of_string]. right. exact Hc.
    + destruct (IH _ _ Hp) as [H1 H2]. split.
      * intros Hin. apply H1 in Hin. rewrite bytesOf_append in Hin.
        apply elem_of_app in Hin as [Hin|Hin]; [exact Hin|].
        cbn in Hin. apply list_elem_of_singleton in Hin. unfold charLF in Hin.
        congruence.
      * intros c' Hin. destruct (H2 c' Hin) as [Hc|Hc].
        -- rewrite bytesOf_append in Hc. apply elem_of_app in Hc as [Hc|Hc]; [auto|].
           cbn in Hc. apply list_elem_of_singleton in Hc as ->.
           right. unfold bytesOf. cbn [String.list_ascii_of_string]. left.
        -- right. unfold bytesOf. cbn [String.list_ascii_of_string]. right. exact Hc.
Qed.

(** X18: whatever the line endings of the submitted text (LF, CRLF or CR),
    the lines the handler resolves hold neither a line feed nor a carriage
    return, and none of them is blank. *)
Theorem nonEmptyLines_are_single_lines (decklist : string) :
  Forall (fun line =>
            (charLF ∉ bytesOf line) /\ (charCR ∉ bytesOf line) /\ TrimSpace line <> "")
         (nonEmptyLinesOf decklist).
Proof.
  unfold nonEmptyLinesOf. apply Forall_forall. intros line Hline.
  apply list_elem_of_filter in Hline as [Hnonblank Hpiece].
  unfold Split in Hpiece. destruct (split_LF_pieces _ _ _ Hpiece) as [HLF Hbytes].
  split; [|split; [|exact Hnonblank]].
  - intros Hin. apply HLF in Hin. cbn in Hin. apply elem_of_nil in Hin. contradiction.
  - intros Hin. destruct (Hbytes _ Hin) as [Hc|Hc].
    + cbn in Hc. apply elem_of_nil in Hc. contradiction.
    + exact (replace_CR_leaves_none _ Hc).
Qed.

(* --------------------------------------------------------------------- *)
(** ** Submission and status queries *)
(* --------------------------------------------------------------------- *)

(** X19: the submit handler refuses the empty decklist with "Decklist is
    required" and changes nothing; any other decklist, one of blank lines
    included, is answered with the new job's id when the queue has room,
    and the job is then stored with status "queued". *)
Theorem handleSubmit_outcomes
    (uuid : string) (now : Z) (decklist : string) (q : TaskQueue) (jobs : JobStore) :
  (decklist = "" -> handleSubmit uuid now decklist q jobs = (q, jobs, SubmitBadRequest))
  /\ (decklist <> "" -> released q = false -> (length (pending q) < queueSize q)%nat ->
      (handleSubmit uuid now decklist q jobs).2 = SubmitQueued uuid
      /\ handleGetJob uuid (handleSubmit uuid now decklist q jobs).1.2
         = JobInfo uuid "queued" None).
Proof.
  unfold handleSubmit. split.
  - intros ->. reflexivity.
  - intros Hne Hrel Hroom. destruct (decide (decklist = "")) as [Heq|_]; [contradiction|].
    unfold CreateJob, Queue. cbn [ID NewGrimoireJob]. rewrite Hrel.
    destruct (Nat.leb_spec (queueSize q) (length (pending q))) as [Hfull|_]; [lia|].
    cbn [fst snd from_option ID]. split; [reflexivity|].
    unfold handleGetJob, GetJob. rewrite lookup_insert_eq. reflexivity.
Qed.

Lemma handleSubmit_outcomes_witness :
  handleSubmit "job-2" 7 "" InitQueue oneJobStore = (InitQueue, oneJobStore, SubmitBadRequest)
  /\ (handleSubmit "job-2" 7 " " InitQueue oneJobStore).2 = SubmitQueued "job-2".
Proof.
  destruct (handleSubmit_outcomes "job-2" 7 "" InitQueue oneJobStore) as [Hempty _].
  destruct (handleSubmit_outcomes "job-2" 7 " " InitQueue oneJobStore) as [_ Hblank].
  split; [apply Hempty; reflexivity|].
  apply Hblank; [discriminate|reflexivity|cbn; lia].
Defined.

(** X20: the listing of all jobs and the query of one job agree: an id is
    listed with a status and an error exactly when the single query
    answers with them, and an id that is not listed is answered with "Job
    not found"; after a sweep cycle the jobs swept are gone from both. *)
Theorem job_queries_agree (jobs : JobStore) (id : string) :
  (forall status err,
     handleGetAllJobs jobs !! id = Some (status, err)
     <-> handleGetJob id jobs = JobInfo id status err)
  /\ (handleGetAllJobs jobs !! id = None <-> handleGetJob id jobs = JobNotFound)
  /\ (forall scanTime j,
        jobs !! id = Some j -> 1 * Hour < scanTime id - CreatedAt j ->
        handleGetAllJobs (cleanupCycle scanTime jobs) !! id = None
        /\ handleGetJob id (cleanupCycle scanTime jobs) = JobNotFound).
Proof.
  unfold handleGetAllJobs, handleGetJob, GetAllJobs, GetJob. split; [|split].
  - intros status err. rewrite lookup_fmap.
    destruct (jobs !! id) as [j|]; cbn; [|split; discriminate].
    split; intros Heq; injection Heq as <- <-; reflexivity.
  - rewrite lookup_fmap. destruct (jobs !! id) as [j|]; cbn; split;
      try discriminate; reflexivity.
  - intros scanTime j Hj Hold. rewrite lookup_fmap, cleanupCycle_lookup, Hj.
    replace (1 * Hour <? Since (scanTime id) (CreatedAt j)) with true
      by (symmetry; apply Since_gt_Hour; exact Hold).
    split; reflexivity.
Qed.

Lemma job_queries_agree_witness :
  handleGetAllJobs sweepStore !! "old" = Some ("complete", None)
  /\ handleGetJob "old" (cleanupCycle (fun _ => 2 * Hour) sweepStore) = JobNotFound.
Proof.
  destruct (job_queries_agree sweepStore "old") as (Hlist & _ & Hswept).
  split.
  - apply Hlist. reflexivity.
  - apply (Hswept (fun _ => 2 * Hour) (setStatus "complete" (NewGrimoireJob "old" 0))).
    + reflexivity.
    + vm_compute. reflexivity.
Defined.

(* --------------------------------------------------------------------- *)
(** ** Time spent asleep *)
(* --------------------------------------------------------------------- *)

Lemma totalSleep_app (a b : list Event) :
  totalSleep (a ++ b) = totalSleep a + totalSleep b.
Proof.
  unfold totalSleep, sleeps. rewrite omap_app.
  induction (omap (fun e => match e with EvSleep d => Some d | _ => None end) a)
    as [|d ds IH]; [reflexivity|].
  cbn [app foldr]. rewrite IH. lia.
Qed.

Lemma totalSleep_nil : totalSleep [] = 0.
Proof. reflexivity. Qed.

Lemma totalSleep_wait (events : list Event) :
  totalSleep (EvRateLimitWait :: events) = totalSleep events.
Proof. reflexivity. Qed.

Lemma totalSleep_get (url : string) (events : list Event) :
  totalSleep (EvGet url :: events) = totalSleep events.
Proof. reflexivity. Qed.

Lemma totalSleep_sleep (d : Z) (events : list Event) :
  totalSleep (EvSleep d :: events) = d + totalSleep events.
Proof. reflexivity. Qed.

Ltac sleep_norm :=
  cbn [fst];
  repeat first [ rewrite totalSleep_app | rewrite totalSleep_wait
               | rewrite totalSleep_get | rewrite totalSleep_sleep
               | rewrite totalSleep_nil ].

Ltac in_seconds := unfold Second, Millisecond, Nanosecond in *; lia.

(** The sleeps of the lookup loop from its iteration [attempt] on. *)
Lemma lookupLoop_sleep_last get card :
  totalSleep (lookupLoop get card 1 2).1 = 0.
Proof.
  rewrite (lookupLoop_step get card 0 2). cbv zeta.
  change (Z.of_nat 2 =? maxRetries - 1) with true.
  destruct (get 2%nat (cardURL card)) as [|code body]; [reflexivity|].
  destruct (code =? StatusTooManyRequests); [reflexivity|].
  destruct (negb (code =? StatusOK)); [reflexivity|]. destruct body; reflexivity.
Qed.

Lemma lookupLoop_sleep_second get card :
  0 <= totalSleep (lookupLoop get card 2 1).1 <= 10 * Second.
Proof.
  rewrite (lookupLoop_step get card 1 1). cbv zeta.
  change (Z.of_nat 1 =? maxRetries - 1) with false.
  change (dmul baseDelay (shl1 (Z.of_nat 1))) with 200000000.
  change (dmul (5 * Second) (shl1 (Z.of_nat 1))) with 10000000000.
  pose proof (lookupLoop_sleep_last get card) as Hl.
  destruct (get 1%nat (cardURL card)) as [|code body]; [sleep_norm; in_seconds|].
  destruct (code =? StatusTooManyRequests); [sleep_norm; in_seconds|].
  destruct (negb (code =? StatusOK)); [sleep_norm; in_seconds|].
  destruct body; sleep_norm; in_seconds.
Qed.

Lemma lookupLoop_sleep_first get card :
  0 <= totalSleep (lookupLoop get card 3 0).1 <= 15 * Second.
Proof.
  rewrite (lookupLoop_step get card 2 0). cbv zeta.
  change (Z.of_nat 0 =? maxRetries - 1) with false.
  change (dmul baseDelay (shl1 (Z.of_nat 0))) with 100000000.
  change (dmul (5 * Second) (shl1 (Z.of_nat 0))) with 5000000000.
  pose proof (lookupLoop_sleep_second get card) as Hl.
  destruct (get 0%nat (cardURL card)) as [|code body]; [sleep_norm; in_seconds|].
  destruct (code =? StatusTooManyRequests); [sleep_norm; in_seconds|].
  destruct (negb (code =? StatusOK)); [sleep_norm; in_seconds|].
  destruct body; sleep_norm; in_seconds.
Qed.

Lemma ParseCard_sleep `{Regexp} get line :
  0 <= totalSleep (ParseCard get line).1 <= 15 * Second.
Proof.
  unfold ParseCard.
  destruct (decide (TrimSpace line = "")); [sleep_norm; in_seconds|].
  destruct (match FindStringSubmatch strictPattern (TrimSpace line) with
            | Some matches => Some matches
            | None =>
                match FindStringSubmatch fallbackPattern (TrimSpace line) with
                | Some matches => Some (<[4%nat := TrimSpace (group 4 matches)]> matches)
                | None => None
                end
            end) as [matches|]; [|sleep_norm; in_seconds].
  destruct (Atoi (group 1 matches)) as [quantity|]; [|sleep_norm; in_seconds].
  change (Z.to_nat maxRetries) with 3%nat.
  match goal with
  | |- context [lookupLoop get ?c 3 0] =>
      pose proof (lookupLoop_sleep_first get c) as Hb;
      destruct (lookupLoop get c 3 0) as [events [card|e]]
  end; exact Hb.
Qed.

Lemma fetchLoop_sleep_last get uri lastErr :
  0 <= totalSleep (fetchLoop get uri 2 1 2 lastErr).1 <= 2 * Second.
Proof.
  rewrite (fetchLoop_step get uri 2 0 2). cbv zeta.
  change (0 <? Z.of_nat 2) with true. cbv iota.
  change (dmul (shl1 (Z.of_nat 2 - 1)) Second) with 2000000000.
  change (Z.of_nat 2 <? 2) with false.
  change (fetchLoop get uri 2 0 3) with
    (fun e : option Err => (@nil Event, @Fail (list Byte.byte) (ErrFetchImage (2 + 1) e))).
  destruct (get 2%nat uri) as [|code body]; [sleep_norm; in_seconds|].
  destruct (negb (code =? StatusOK)).
  - destruct (code =? StatusTooManyRequests); cbn [andb]; sleep_norm; in_seconds.
  - destruct body; sleep_norm; in_seconds.
Qed.

Lemma fetchLoop_sleep_second get uri lastErr :
  0 <= totalSleep (fetchLoop get uri 2 2 1 lastErr).1 <= 13 * Second.
Proof.
  rewrite (fetchLoop_step get uri 2 1 1). cbv zeta.
  change (0 <? Z.of_nat 1) with true. cbv iota.
  change (dmul (shl1 (Z.of_nat 1 - 1)) Second) with 1000000000.
  change (Z.of_nat 1 <? 2) with true.
  change (dmul (5 * Second) (shl1 (Z.of_nat 1))) with 10000000000.
  pose proof (fetchLoop_sleep_last get uri) as Hl.
  destruct (get 1%nat uri) as [|code body].
  - specialize (Hl (Some ErrTransport)). sleep_norm. in_seconds.
  - destruct (negb (code =? StatusOK)).
    + specialize (Hl (Some (ErrHTTPStatus code))).
      destruct (code =? StatusTooManyRequests); cbn [andb]; sleep_norm; in_seconds.
    + destruct body; [sleep_norm; in_seconds|].
      specialize (Hl (Some ErrRead)). sleep_norm. in_seconds.
Qed.

Lemma fetchLoop_sleep_first get uri :
  0 <= totalSleep (fetchLoop get uri 2 3 0 None).1 <= 18 * Second.
Proof.
  rewrite (fetchLoop_step get uri 2 2 0). cbv zeta.
  change (0 <? Z.of_nat 0) with false. cbv iota.
  change (Z.of_nat 0 <? 2) with true.
  change (dmul (5 * Second) (shl1 (Z.of_nat 0))) with 5000000000.
  pose proof (fetchLoop_sleep_second get uri) as Hl.
  destruct (get 0%nat uri) as [|code body].
  - specialize (Hl (Some ErrTransport)). sleep_norm. in_seconds.
  - destruct (negb (code =? StatusOK)).
    + specialize (Hl (Some (ErrHTTPStatus code))).
      destruct (code =? StatusTooManyRequests); cbn [andb]; sleep_norm; in_seconds.
    + destruct body; [sleep_norm; in_seconds|].
      specialize (Hl (Some ErrRead)). sleep_norm. in_seconds.
Qed.

Lemma pause_sleep (attempt : nat) :
  totalSleep (if Z.of_nat attempt <? 2
              then [EvSleep (dmul Second (Z.of_nat attempt + 1))] else [])
  = match attempt with
    | O => 1 * Second
    | S O => 2 * Second
    | _ => 0
    end.
Proof.
  destruct attempt as [|[|attempt]]; [reflexivity|reflexivity|].
  destruct (Z.ltb_spec (Z.of_nat (S (S attempt))) 2); [lia|reflexivity].
Qed.

(** X21: the sleeps of the retry loops add up to at most 15 s in one call
    of [ParseCard] (5 s and 10 s after two throttling answers), at most
    48 s in one resolution goroutine (three calls and the pauses of 1 s and
    2 s between them), and at most 18 s in one image download with two
    retries (5 s + 1 s + 10 s + 2 s); the waits of the rate limiter and the
    requests themselves come on top. *)
Theorem sleep_budgets `{Regexp} :
  (forall get line, 0 <= totalSleep (ParseCard get line).1 <= 15 * Second)
  /\ (forall w pos line, 0 <= totalSleep (resolveLine w pos line).1 <= 48 * Second)
  /\ (forall get uri, 0 <= totalSleep (FetchImageWithRetry get uri 2).1 <= 18 * Second).
Proof.
  split; [apply ParseCard_sleep|]. split.
  - intros w pos line. unfold resolveLine.
    assert (Hb : 0 <= totalSleep (parseAttempts w pos line 3 0 (Ok emptyCard)).1
                 <= 48 * Second).
    { rewrite (parseAttempts_step w pos line 2 0).
      pose proof (ParseCard_sleep (clientGet w pos 0) line) as H0.
      destruct (ParseCard (clientGet w pos 0) line) as [ev0 [c0|e0]]; cbn [fst] in *;
        [in_seconds|].
      rewrite (parseAttempts_step w pos line 1 1).
      pose proof (ParseCard_sleep (clientGet w pos 1) line) as H1.
      destruct (ParseCard (clientGet w pos 1) line) as [ev1 [c1|e1]]; cbn [fst] in *;
        [rewrite !totalSleep_app, pause_sleep; in_seconds|].
      rewrite (parseAttempts_step w pos line 0 2).
      pose proof (ParseCard_sleep (clientGet w pos 2) line) as H2.
      destruct (ParseCard (clientGet w pos 2) line) as [ev2 [c2|e2]]; cbn [fst] in *;
        rewrite !totalSleep_app, !pause_sleep; cbn [parseAttempts fst];
        rewrite ?totalSleep_nil; in_seconds. }
    destruct (parseAttempts w pos line 3 0 (Ok emptyCard)) as [events [card|err]];
      exact Hb.
  - intros get uri. apply fetchLoop_sleep_first.
Qed.

(* --------------------------------------------------------------------- *)
(** ** The quantity of a parsed line *)
(* --------------------------------------------------------------------- *)

Lemma pieces_spec (p : ascii -> bool) (s : string) : forall a b,
  (a, b) ∈ pieces p s -> a <> EmptyString /\ allBytes p a.
Proof.
  induction s as [|c s IH]; intros a b Hin; cbn [pieces] in Hin.
  - apply elem_of_nil in Hin. contradiction.
  - destruct (p c) eqn:Ep; [|apply elem_of_nil in Hin; contradiction].
    apply elem_of_cons in Hin as [Heq|Hin].
    + injection Heq as -> ->. split; [discriminate|].
      unfold allBytes, bytesOf. cbn. repeat constructor. exact Ep.
    + apply list_elem_of_In, in_map_iff in Hin. destruct Hin as ([a' b'] & Heq & Hin).
      injection Heq as <- <-. apply list_elem_of_In in Hin.
      destruct (IH _ _ Hin) as [_ Hall]. split; [discriminate|].
      unfold allBytes, bytesOf in *. cbn. constructor; assumption.
Qed.

Lemma greedyPieces_spec (p : ascii -> bool) (s a b : string) :
  (a, b) ∈ greedyPieces p s -> a <> EmptyString /\ allBytes p a.
Proof.
  unfold greedyPieces. intros Hin. apply list_elem_of_In in Hin.
  apply in_rev in Hin. apply list_elem_of_In in Hin. exact (pieces_spec p s a b Hin).
Qed.

(** The first group of a match of either pattern is the leading digits. *)
Lemma matchLine_quantity (tail : ascii -> bool) (s : string) (matches : list string) :
  matchLine tail s = Some matches ->
  group 1 matches <> EmptyString /\ allBytes reDigit (group 1 matches).
Proof.
  unfold matchLine. intros Hm. apply head_Some_elem_of in Hm.
  apply list_elem_of_bind in Hm as ([qty s1] & Hm & Hq).
  apply list_elem_of_bind in Hm as ([ws1 s2] & Hm & _).
  apply list_elem_of_bind in Hm as ([name s3] & Hm & _).
  apply list_elem_of_bind in Hm as ([ws2 s4] & Hm & _).
  apply list_elem_of_bind in Hm as (s5 & Hm & _).
  apply list_elem_of_bind in Hm as ([set s6] & Hm & _).
  apply list_elem_of_bind in Hm as (s7 & Hm & _).
  apply list_elem_of_bind in Hm as ([ws3 s8] & Hm & _).
  apply list_elem_of_bind in Hm as ([coll s9] & Hm & _).
  destruct (decide (s9 = EmptyString)); [|apply elem_of_nil in Hm; contradiction].
  apply list_elem_of_singleton in Hm as ->. cbn [group nth].
  exact (greedyPieces_spec reDigit s qty s1 Hq).
Qed.

Lemma digit_range (c : ascii) (d : Z) : digit c = Some d -> 0 <= d <= 9.
Proof.
  unfold digit. destruct ((48 <=? code c)%N && (code c <=? 57)%N) eqn:E; [|discriminate].
  intros Heq. injection Heq as <-.
  apply andb_true_iff in E as [E1 E2]. apply N.leb_le in E1, E2. lia.
Qed.

Lemma digitsValue_nonneg (s : string) : forall acc v,
  0 <= acc -> digitsValue acc s = Some v -> 0 <= v.
Proof.
  induction s as [|c s IH]; intros acc v Hacc Hv; cbn [digitsValue] in Hv.
  - injection Hv as <-. exact Hacc.
  - destruct (digit c) as [d|] eqn:Ed; [|discriminate].
    apply digit_range in Ed. apply (IH (10 * acc + d) v); [lia|exact Hv].
Qed.

(** [Atoi] of a string that starts with a digit is never negative. *)
Lemma Atoi_digits_nonneg (s : string) (v : Z) :
  s <> EmptyString -> allBytes reDigit s -> Atoi s = Some v -> 0 <= v.
Proof.
  intros Hne Hall. destruct s as [|c s]; [contradiction|].
  unfold allBytes, bytesOf in Hall. cbn in Hall. inversion Hall as [|? ? Hc _]; subst.
  assert (Hsign : Atoi (String c s)
                  = match digitsValue 0 (String c s) with
                    | Some v0 =>
                        if (minDuration <=? v0) && (v0 <=? maxDuration)
                        then Some v0 else None
                    | None => None
                    end).
  { unfold Atoi.
    destruct c as [[] [] [] [] [] [] [] []]; try discriminate Hc; reflexivity. }
  rewrite Hsign. destruct (digitsValue 0 (String c s)) as [v0|] eqn:Ed; [|discriminate].
  destruct ((minDuration <=? v0) && (v0 <=? maxDuration)); [|discriminate].
  intros Heq. injection Heq as <-.
  apply (digitsValue_nonneg (String c s) 0 v0); [lia|exact Ed].
Qed.

(** X22: with the two patterns read by backtracking, the quantity of a
    card [ParseCard] returns is never negative, unless the catalog's
    answer itself carries a "quantity" key that overrides the parsed
    one. *)
Theorem parsed_quantity_is_not_negative get (line : string) events (card : Card) :
  ParseCard (H := backtracking) get line = (events, Ok card) ->
  (forall k url code j, get k url = Response code (Some j) -> jsonQuantity j = None) ->
  0 <= Quantity card.
Proof.
  unfold ParseCard. intros Hp Hjson.
  destruct (decide (TrimSpace line = "")); [discriminate|].
  destruct (match FindStringSubmatch strictPattern (TrimSpace line) with
            | Some matches => Some matches
            | None =>
                match FindStringSubmatch fallbackPattern (TrimSpace line) with
                | Some matches => Some (<[4%nat := TrimSpace (group 4 matches)]> matches)
                | None => None
                end
            end) as [matches|] eqn:Em; [|discriminate].
  assert (Hq : group 1 matches <> EmptyString /\ allBytes reDigit (group 1 matches)).
  { unfold FindStringSubmatch, backtracking in Em.
    rewrite decide_True in Em by reflexivity.
    destruct (matchLine reNotSpace (TrimSpace line)) as [m|] eqn:E1.
    - injection Em as <-. exact (matchLine_quantity _ _ _ E1).
    - rewrite decide_False in Em by discriminate.
      rewrite decide_True in Em by reflexivity.
      destruct (matchLine reAny (TrimSpace line)) as [m|] eqn:E2; [|discriminate].
      injection Em as <-.
      destruct (matchLine_quantity _ _ _ E2) as [Hne Hd].
      assert (Hg : group 1 (<[4%nat := TrimSpace (group 4 m)]> m) = group 1 m).
      { unfold group. destruct m as [|x0 [|x1 [|x2 [|x3 [|x4 m]]]]]; reflexivity. }
      rewrite Hg. split; assumption. }
  destruct Hq as [Hne Hd].
  destruct (Atoi (group 1 matches)) as [quantity|] eqn:Ea; [|discriminate].
  pose proof (Atoi_digits_nonneg _ _ Hne Hd Ea) as Hnonneg.
  change (Z.to_nat maxRetries) with 3%nat in Hp.
  match type of Hp with
  | context [lookupLoop get ?c 3 0] =>
      set (card0 := c) in *;
      destruct (lookupLoop get card0 3 0) as [ev [card1|e]] eqn:El; [|discriminate]
  end.
  injection Hp as _ <-. cbn [withImageURIs Quantity].
  assert (Hok : (lookupLoop get card0 3 0).2 = Ok card1) by (rewrite El; reflexivity).
  apply (lookupLoop_Ok get card0 3 0 card1) in Hok; [|lia|lia].
  destruct Hok as (k & j & _ & Hget & -> & _).
  unfold Decode. cbn [Quantity]. rewrite (Hjson _ _ _ _ Hget). exact Hnonneg.
Qed.

Lemma parsed_quantity_is_not_negative_witness :
  0 <= Quantity
         (withImageURIs
            {| Quantity := 1; Name := "Opt"; CardSet := "xln"; CollectorNumber := "65";
               Layout := "normal"; ImageURIs := ∅ |}).
Proof.
  apply (parsed_quantity_is_not_negative (clientGet calmWorld 0 0) oneLine
           [EvRateLimitWait; EvGet "https://api.scryfall.com/cards/xln/65"]).
  - vm_compute. reflexivity.
  - intros k url code j Hget. cbn in Hget. injection Hget as _ <-. reflexivity.
Defined.

(* --------------------------------------------------------------------- *)
(** ** Failing lines, and the order of pages when nothing is reordered *)
(* --------------------------------------------------------------------- *)

(** X23: when at least one line does not resolve, the handler stores no
    document: it sets the job's error to "encountered n errors", n being
    the number of lines that failed and the errors being theirs (each a
    "failed to parse"), and returns that error - however many other lines
    resolved. *)
Theorem failing_line_fails_the_job `{Regexp} (w : World) (decklist : string) :
  let failures := omap failOf (lineResults w (nonEmptyLinesOf decklist)) in
  failures <> [] ->
  exists errors,
    errors ≡ₚ failures
    /\ processJob w decklist
       = ([OpSetStatus "parse";
           OpSetError (ErrEncountered (Z.of_nat (length failures)) errors)],
          Some (ErrEncountered (Z.of_nat (length failures)) errors))
    /\ forall j0, PDF (applyOps (processJob w decklist).1 j0) = PDF j0.
Proof.
  cbn zeta. intros Hfail.
  set (lines := nonEmptyLinesOf decklist) in *.
  assert (Hperm : omap failOf (resultsChan w lines) ≡ₚ omap failOf (lineResults w lines))
    by (rewrite resultsChan_Permutation; reflexivity).
  exists (omap failOf (resultsChan w lines)). split; [exact Hperm|].
  assert (Hlen : length (omap failOf (resultsChan w lines))
                 = length (omap failOf (lineResults w lines)))
    by (apply Permutation_length; exact Hperm).
  assert (Hrun : processJob w decklist
                 = ([OpSetStatus "parse";
                     OpSetError (ErrEncountered
                                   (Z.of_nat (length (omap failOf (lineResults w lines))))
                                   (omap failOf (resultsChan w lines)))],
                    Some (ErrEncountered
                            (Z.of_nat (length (omap failOf (lineResults w lines))))
                            (omap failOf (resultsChan w lines))))).
  { unfold processJob. fold lines.
    destruct lines as [|l ls] eqn:El.
    - exfalso. apply Hfail. reflexivity.
    - cbn [length Nat.eqb]. rewrite collect_spec.
      destruct (omap failOf (resultsChan w (l :: ls))) as [|e es] eqn:Ee.
      + exfalso. apply Hfail. apply Permutation_nil_r. symmetry. exact Hperm.
      + rewrite <- Hlen. reflexivity. }
  split; [exact Hrun|]. intros j0. rewrite Hrun. reflexivity.
Qed.

Lemma failing_line_fails_the_job_witness :
  Error (jobAfter (H := backtracking) offlineWorld oneLine)
  = Some (ErrEncountered 1 [ErrFailedToParse oneLine (ErrHTTPRequestFailed 3)])
  /\ PDF (jobAfter (H := backtracking) offlineWorld oneLine) = None.
Proof.
  destruct (failing_line_fails_the_job (H := backtracking) offlineWorld oneLine)
    as (errors & _ & _ & Hpdf).
  - vm_compute. discriminate.
  - split; [vm_compute; reflexivity|]. unfold jobAfter. rewrite Hpdf. reflexivity.
Defined.

Lemma resolveLine_resolved `{Regexp} (w : World) (pos : nat) (line : string) (card : Card) :
  (resolveLine w pos line).2 = Ok card -> resolved card.
Proof.
  rewrite resolveLine_result. unfold resolved.
  destruct (ParseCard (clientGet w pos 0) line) as [ev0 [c0|e0]] eqn:E0; cbn [snd].
  - intros Heq. injection Heq as <-. eauto.
  - destruct (ParseCard (clientGet w pos 1) line) as [ev1 [c1|e1]] eqn:E1; cbn [snd].
    + intros Heq. injection Heq as <-. eauto.
    + destruct (ParseCard (clientGet w pos 2) line) as [ev2 [c2|e2]] eqn:E2; cbn [snd].
      * intros Heq. injection Heq as <-. eauto.
      * discriminate.
Qed.

Lemma cardsOf_resolved `{Regexp} (w : World) (decklist : string) :
  Forall resolved (cardsOf w decklist).
Proof.
  unfold cardsOf. rewrite collect_spec. cbn [fst]. apply Forall_forall. intros card Hc.
  apply list_elem_of_omap in Hc as (r & Hr & Hok).
  destruct r as [c|e]; [|discriminate]. injection Hok as ->.
  unfold resultsChan in Hr.
  rewrite (map_pairs_fmap (fun pos line => (resolveLine w pos line).2)) in Hr.
  apply list_elem_of_fmap in Hr as ([pos line] & Heq & _). cbn [fst snd] in Heq.
  apply (resolveLine_resolved w pos line). symmetry. exact Heq.
Qed.

Lemma copies_in_order (w : World) (card0 : Card) (n : nat) : forall k,
  (forall k', rangeOrder w k' = []) ->
  (copies w (withImageURIs card0) n k).*1
  = concat (replicate n (facesInOrder (withImageURIs card0))).
Proof.
  induction n as [|n IH]; intros k Hrange; [reflexivity|].
  cbn [copies replicate concat]. rewrite fmap_app, IH by exact Hrange. f_equal.
  rewrite Hrange. unfold facesInOrder, withImageURIs. cbn [ImageURIs Layout].
  destruct (decide (Layout card0 = "transform" \/ Layout card0 = "modal_dfc"));
    reflexivity.
Qed.

Lemma collectURIs_in_order `{Regexp} (w : World) (cards : list Card) : forall k,
  (forall k', rangeOrder w k' = []) ->
  Forall resolved cards ->
  (collectURIs w cards k).*1 = urisInOrder cards.
Proof.
  induction cards as [|card rest IH]; intros k Hrange Hres; [reflexivity|].
  inversion Hres as [|? ? Hr Hres']; subst.
  destruct Hr as (get & line & events & Hp).
  destruct (ParseCard_Ok _ _ _ _ Hp) as [card0 ->].
  cbn [collectURIs urisInOrder flat_map]. rewrite fmap_app.
  rewrite copies_in_order by exact Hrange. f_equal. apply IH; assumption.
Qed.

(** X24: when the resolution goroutines obtain the semaphore in the order
    of the lines and every [range] over a card's faces yields "front"
    first, the cards are in decklist order and the uris, hence the pages,
    follow the decklist: the cards in line order, the copies of a card one
    after the other, the front of each copy before its back. *)
Theorem unreordered_run_follows_the_decklist `{Regexp} (w : World) (decklist : string) :
  semaphoreOrder w = [] ->
  (forall k, rangeOrder w k = []) ->
  let cards := cardsOf w decklist in
  cards = omap okOf (lineResults w (nonEmptyLinesOf decklist))
  /\ allURIsOf w cards = urisInOrder cards
  /\ GeneratePDF w cards = writePDF w (pagesInOrder w (urisInOrder cards)).
Proof.
  intros Hsem Hrange. cbn zeta.
  assert (Hu : allURIsOf w (cardsOf w decklist) = urisInOrder (cardsOf w decklist)).
  { unfold allURIsOf. apply collectURIs_in_order; [exact Hrange|apply cardsOf_resolved]. }
  split; [|split; [exact Hu|]].
  - unfold cardsOf, resultsChan. rewrite collect_spec. cbn [fst].
    rewrite Hsem, shuffle_no_picks.
    rewrite (map_pairs_fmap (fun pos line => (resolveLine w pos line).2)).
    rewrite fmap_imap. reflexivity.
  - rewrite GeneratePDF_pages, Hu. reflexivity.
Qed.

Lemma unreordered_run_follows_the_decklist_witness :
  allURIsOf transformWorld (cardsOf (H := backtracking) transformWorld twoLines)
  = ["https://api.scryfall.com/cards/xln/65?format=image&version=png";
     "https://api.scryfall.com/cards/m19/156?format=image&version=png";
     "https://api.scryfall.com/cards/m19/156?format=image&version=png&face=back";
     "https://api.scryfall.com/cards/m19/156?format=image&version=png";
     "https://api.scryfall.com/cards/m19/156?format=image&version=png&face=back"].
Proof.
  destruct (unreordered_run_follows_the_decklist (H := backtracking)
              transformWorld twoLines) as (_ & Huris & _).
  - reflexivity.
  - intros k. reflexivity.
  - rewrite Huris. vm_compute. reflexivity.
Defined.
